(** * Call: the call state machine of [src/App.tsx]

    A shallow embedding of the [App] component: its React state, its refs,
    the browser objects it creates (peer connections, media streams,
    intervals), the signalling messages it sends, and every callback through
    which the component is entered (button clicks, channel broadcasts,
    settled promises, peer-connection events, interval ticks).

    Two features of the source shape the model.

    - _Closures._  Every function declared in the body of [App]
      ([handleIncomingSignal], [endCall], [rejectCall], ...) is re-created on
      each render and reads the state constants ([userRole], [callState],
      [incomingCall], [isMuted]) of the render that created it.  The
      functions below therefore take that render as their first argument [c].
      A click runs the handler of the latest render.  The channel callback is
      installed by the effect of lines 58-74, whose dependency list is
      [[userRole]]: it keeps the [handleIncomingSignal] (and so the
      [endCall]) of the render in which the identity was chosen.  The
      handlers of a peer connection (lines 116-141) and the code after an
      [await] keep the render in which [startCall] or [acceptCall] was
      invoked.  Refs ([peerConnectionRef.current], ...) and the state setters
      are shared by all renders and always act on the current state.

    - _Suspension points._  [startCall] and [acceptCall] are [async]; each
      [await] splits them.  The part after an [await] is kept in the list of
      outstanding continuations and runs when the awaited promise settles. *)

From Stdlib Require Import Ascii DecimalString DecimalNat.
From stdpp Require Import base decidable option list strings.

Set Default Proof Using "Type".

(** ** Data model (lines 22-33) *)

Inductive Role := moo | boo.

(** [type UserRole = 'moo' | 'boo' | null] *)
Definition UserRole := option Role.

Inductive CallState := idle | calling | ringing | active | ended.

Inductive Action := act_call | act_answer | act_reject | act_end | act_ice_candidate.

(** Session descriptions and candidates are opaque payloads. *)
Definition RTCSessionDescriptionInit := nat.
Definition RTCIceCandidateInit := nat.

Record CallData := {
  from : UserRole;
  to : UserRole;
  offer : option RTCSessionDescriptionInit;
  answer : option RTCSessionDescriptionInit;
  candidate : option RTCIceCandidateInit;
  action : Action;
  timestamp : nat
}.

#[global] Instance Role_eq_dec : EqDecision Role.
Proof. solve_decision. Defined.
#[global] Instance CallState_eq_dec : EqDecision CallState.
Proof. solve_decision. Defined.
#[global] Instance Action_eq_dec : EqDecision Action.
Proof. solve_decision. Defined.
#[global] Instance CallData_eq_dec : EqDecision CallData.
Proof. solve_decision. Defined.

(** The state constants of one render of [App] (lines 36-41). *)
Record Render := {
  userRole : UserRole;
  callState : CallState;
  callDuration : nat;
  isConnected : bool;
  incomingCall : option CallData;
  isMuted : bool
}.

(** ** Browser objects *)

(** An audio track: [track.enabled], and whether [track.stop()] has not yet
    been called ([readyState === 'live']). *)
Record MediaStreamTrack := { enabled : bool; live : bool }.

(** [getUserMedia({ audio })] yields audio tracks only, so [getTracks()] and
    [getAudioTracks()] return the same list. *)
Abbreviation MediaStream := (list MediaStreamTrack).

Inductive RTCPeerConnectionState :=
  cs_new | cs_connecting | cs_connected | cs_disconnected | cs_failed | cs_closed.

(** A peer connection records what the component did to it: whether it was
    closed, the render whose closures are its event handlers, and the
    arguments of the calls [addTrack], [setLocalDescription],
    [setRemoteDescription] and [addIceCandidate].  ([pc.ontrack] only
    assigns the remote audio element, which the model leaves out.) *)
Record RTCPeerConnection := {
  closed : bool;
  handlers : Render;
  senders : list (nat * nat);
  localDescription : option RTCSessionDescriptionInit;
  remoteDescription : option RTCSessionDescriptionInit;
  remoteCandidates : list RTCIceCandidateInit
}.

(** The code that follows each [await] of [startCall] (lines 171, 181, 182)
    and of [acceptCall] (lines 202, 213, 214, 215), with the constants it has
    captured.  The [await]s of [handleIncomingSignal] (lines 86, 97) are
    followed by nothing. *)
Inductive Pending :=
  | startCall_getUserMedia (c : Render)
  | startCall_createOffer (c : Render) (pc : nat)
  | startCall_setLocalDescription (c : Render) (pc : nat) (o : RTCSessionDescriptionInit)
  | acceptCall_getUserMedia (c : Render)
  | acceptCall_setRemoteDescription (c : Render) (pc : nat)
  | acceptCall_createAnswer (c : Render) (pc : nat)
  | acceptCall_setLocalDescription (c : Render) (pc : nat) (a : RTCSessionDescriptionInit).

(** ** The component and its environment *)

Record World := {
  react : Render;                          (* current React state *)
  peerConnectionRef : option nat;          (* index into [connections] *)
  localStreamRef : option nat;             (* index into [streams] *)
  callTimerRef : option nat;               (* index into [intervals] *)
  connections : list RTCPeerConnection;    (* every connection constructed *)
  streams : list MediaStream;              (* every stream acquired *)
  intervals : list bool;                   (* [true] until cleared *)
  sent : list CallData;                    (* payloads passed to [send], oldest first *)
  subscription : option Render;            (* render of the installed channel callback *)
  pending : list Pending;                  (* outstanding continuations *)
  now : nat                                (* [Date.now()] *)
}.

Definition init : World := {|
  react := {| userRole := None; callState := idle; callDuration := 0;
              isConnected := false; incomingCall := None; isMuted := false |};
  peerConnectionRef := None; localStreamRef := None; callTimerRef := None;
  connections := []; streams := []; intervals := [];
  sent := []; subscription := None; pending := []; now := 0
|}.

(** *** Field updates *)

Definition set_react (f : Render -> Render) (w : World) : World :=
  {| react := f (react w); peerConnectionRef := peerConnectionRef w;
     localStreamRef := localStreamRef w; callTimerRef := callTimerRef w;
     connections := connections w; streams := streams w; intervals := intervals w;
     sent := sent w; subscription := subscription w; pending := pending w; now := now w |}.

Definition set_peerConnectionRef (v : option nat) (w : World) : World :=
  {| react := react w; peerConnectionRef := v;
     localStreamRef := localStreamRef w; callTimerRef := callTimerRef w;
     connections := connections w; streams := streams w; intervals := intervals w;
     sent := sent w; subscription := subscription w; pending := pending w; now := now w |}.

Definition set_localStreamRef (v : option nat) (w : World) : World :=
  {| react := react w; peerConnectionRef := peerConnectionRef w;
     localStreamRef := v; callTimerRef := callTimerRef w;
     connections := connections w; streams := streams w; intervals := intervals w;
     sent := sent w; subscription := subscription w; pending := pending w; now := now w |}.

Definition set_callTimerRef (v : option nat) (w : World) : World :=
  {| react := react w; peerConnectionRef := peerConnectionRef w;
     localStreamRef := localStreamRef w; callTimerRef := v;
     connections := connections w; streams := streams w; intervals := intervals w;
     sent := sent w; subscription := subscription w; pending := pending w; now := now w |}.

Definition set_connections (v : list RTCPeerConnection) (w : World) : World :=
  {| react := react w; peerConnectionRef := peerConnectionRef w;
     localStreamRef := localStreamRef w; callTimerRef := callTimerRef w;
     connections := v; streams := streams w; intervals := intervals w;
     sent := sent w; subscription := subscription w; pending := pending w; now := now w |}.

Definition set_streams (v : list MediaStream) (w : World) : World :=
  {| react := react w; peerConnectionRef := peerConnectionRef w;
     localStreamRef := localStreamRef w; callTimerRef := callTimerRef w;
     connections := connections w; streams := v; intervals := intervals w;
     sent := sent w; subscription := subscription w; pending := pending w; now := now w |}.

Definition set_intervals (v : list bool) (w : World) : World :=
  {| react := react w; peerConnectionRef := peerConnectionRef w;
     localStreamRef := localStreamRef w; callTimerRef := callTimerRef w;
     connections := connections w; streams := streams w; intervals := v;
     sent := sent w; subscription := subscription w; pending := pending w; now := now w |}.

Definition set_sent (v : list CallData) (w : World) : World :=
  {| react := react w; peerConnectionRef := peerConnectionRef w;
     localStreamRef := localStreamRef w; callTimerRef := callTimerRef w;
     connections := connections w; streams := streams w; intervals := intervals w;
     sent := v; subscription := subscription w; pending := pending w; now := now w |}.

Definition set_subscription (v : option Render) (w : World) : World :=
  {| react := react w; peerConnectionRef := peerConnectionRef w;
     localStreamRef := localStreamRef w; callTimerRef := callTimerRef w;
     connections := connections w; streams := streams w; intervals := intervals w;
     sent := sent w; subscription := v; pending := pending w; now := now w |}.

Definition set_pending (v : list Pending) (w : World) : World :=
  {| react := react w; peerConnectionRef := peerConnectionRef w;
     localStreamRef := localStreamRef w; callTimerRef := callTimerRef w;
     connections := connections w; streams := streams w; intervals := intervals w;
     sent := sent w; subscription := subscription w; pending := v; now := now w |}.

Definition set_now (v : nat) (w : World) : World :=
  {| react := react w; peerConnectionRef := peerConnectionRef w;
     localStreamRef := localStreamRef w; callTimerRef := callTimerRef w;
     connections := connections w; streams := streams w; intervals := intervals w;
     sent := sent w; subscription := subscription w; pending := pending w; now := v |}.

(** *** The React state setters (lines 36-41) *)

Definition setUserRole (v : UserRole) : World -> World :=
  set_react (fun r => {| userRole := v; callState := callState r;
    callDuration := callDuration r; isConnected := isConnected r;
    incomingCall := incomingCall r; isMuted := isMuted r |}).

Definition setCallState (v : CallState) : World -> World :=
  set_react (fun r => {| userRole := userRole r; callState := v;
    callDuration := callDuration r; isConnected := isConnected r;
    incomingCall := incomingCall r; isMuted := isMuted r |}).

(** [setCallDuration] is used with a value (lines 273, 291) and with an
    updater (line 293); a value [v] is the updater [fun _ => v]. *)
Definition setCallDuration (f : nat -> nat) : World -> World :=
  set_react (fun r => {| userRole := userRole r; callState := callState r;
    callDuration := f (callDuration r); isConnected := isConnected r;
    incomingCall := incomingCall r; isMuted := isMuted r |}).

Definition setIsConnected (v : bool) : World -> World :=
  set_react (fun r => {| userRole := userRole r; callState := callState r;
    callDuration := callDuration r; isConnected := v;
    incomingCall := incomingCall r; isMuted := isMuted r |}).

Definition setIncomingCall (v : option CallData) : World -> World :=
  set_react (fun r => {| userRole := userRole r; callState := callState r;
    callDuration := callDuration r; isConnected := isConnected r;
    incomingCall := v; isMuted := isMuted r |}).

Definition setIsMuted (v : bool) : World -> World :=
  set_react (fun r => {| userRole := userRole r; callState := callState r;
    callDuration := callDuration r; isConnected := isConnected r;
    incomingCall := incomingCall r; isMuted := v |}).

(** ** The functions of [App] *)

(** JavaScript truthiness of a value that is an object or a non-empty string
    when present, and [null] or [undefined] when absent. *)
Definition truthy {A} (o : option A) : bool :=
  match o with Some _ => true | None => false end.

(** [userRole === 'moo' ? 'boo' : 'moo'] (lines 120, 186, 251). *)
Definition other (u : UserRole) : UserRole :=
  if bool_decide (u = Some moo) then Some boo else Some moo.

(** [Omit<CallData, 'timestamp'>]: a payload that still lacks its timestamp. *)
Definition signal (f t : UserRole) (a : Action)
    (o an : option RTCSessionDescriptionInit) (cd : option RTCIceCandidateInit)
    (ts : nat) : CallData :=
  {| from := f; to := t; offer := o; answer := an; candidate := cd;
     action := a; timestamp := ts |}.

(** [sendSignal] (lines 104-110). *)
Definition sendSignal (callData : nat -> CallData) (w : World) : World :=
  set_sent (sent w ++ [callData (now w)]) w.

(** *** Operations on browser objects *)

Definition on_connection (p : nat) (f : RTCPeerConnection -> RTCPeerConnection)
    (w : World) : World :=
  set_connections (alter f p (connections w)) w.

Definition pc_close (pc : RTCPeerConnection) : RTCPeerConnection :=
  {| closed := true; handlers := handlers pc; senders := senders pc;
     localDescription := localDescription pc;
     remoteDescription := remoteDescription pc;
     remoteCandidates := remoteCandidates pc |}.

Definition pc_addTracks (s : nat) (n : nat) (pc : RTCPeerConnection) : RTCPeerConnection :=
  {| closed := closed pc; handlers := handlers pc;
     senders := senders pc ++ map (fun i => (s, i)) (seq 0 n);
     localDescription := localDescription pc;
     remoteDescription := remoteDescription pc;
     remoteCandidates := remoteCandidates pc |}.

Definition pc_setLocalDescription (d : RTCSessionDescriptionInit)
    (pc : RTCPeerConnection) : RTCPeerConnection :=
  {| closed := closed pc; handlers := handlers pc; senders := senders pc;
     localDescription := Some d;
     remoteDescription := remoteDescription pc;
     remoteCandidates := remoteCandidates pc |}.

Definition pc_setRemoteDescription (d : RTCSessionDescriptionInit)
    (pc : RTCPeerConnection) : RTCPeerConnection :=
  {| closed := closed pc; handlers := handlers pc; senders := senders pc;
     localDescription := localDescription pc;
     remoteDescription := Some d;
     remoteCandidates := remoteCandidates pc |}.

Definition pc_addIceCandidate (cd : RTCIceCandidateInit)
    (pc : RTCPeerConnection) : RTCPeerConnection :=
  {| closed := closed pc; handlers := handlers pc; senders := senders pc;
     localDescription := localDescription pc;
     remoteDescription := remoteDescription pc;
     remoteCandidates := remoteCandidates pc ++ [cd] |}.

Definition track_stop (t : MediaStreamTrack) : MediaStreamTrack :=
  {| enabled := enabled t; live := false |}.

Definition track_set_enabled (b : bool) (t : MediaStreamTrack) : MediaStreamTrack :=
  {| enabled := b; live := live t |}.

Definition on_stream (s : nat) (f : MediaStreamTrack -> MediaStreamTrack)
    (w : World) : World :=
  set_streams (alter (map f) s (streams w)) w.

(** [clearInterval]. *)
Definition clearInterval (t : nat) (w : World) : World :=
  set_intervals (<[t := false]> (intervals w)) w.

(** [startCallTimer] (lines 290-295). *)
Definition startCallTimer (w : World) : World :=
  let w := setCallDuration (fun _ => 0) w in
  set_callTimerRef (Some (length (intervals w)))
    (set_intervals (intervals w ++ [true]) w).

(** [endCall] (lines 247-277), as created by render [c]. *)
Definition endCall (c : Render) (w : World) : World :=
  let w :=
    if truthy (userRole c) &&
       (bool_decide (callState c = active) || bool_decide (callState c = calling))
    then sendSignal (signal (userRole c) (other (userRole c)) act_end None None None) w
    else w in
  let w :=
    match peerConnectionRef w with
    | Some p => set_peerConnectionRef None (on_connection p pc_close w)
    | None => w
    end in
  let w :=
    match localStreamRef w with
    | Some s => set_localStreamRef None (on_stream s track_stop w)
    | None => w
    end in
  let w :=
    match callTimerRef w with
    | Some t => set_callTimerRef None (clearInterval t w)
    | None => w
    end in
  setIsMuted false (setIncomingCall None (setIsConnected false
    (setCallDuration (fun _ => 0) (setCallState idle w)))).

(** [rejectCall] (lines 233-244), as created by render [c]. *)
Definition rejectCall (c : Render) (w : World) : World :=
  match incomingCall c, userRole c with
  | Some ic, Some _ =>
      let w := sendSignal (signal (userRole c) (from ic) act_reject None None None) w in
      setCallState idle (setIncomingCall None w)
  | _, _ => w
  end.

(** [toggleMute] (lines 280-287), as created by render [c]. *)
Definition toggleMute (c : Render) (w : World) : World :=
  match localStreamRef w with
  | Some s => setIsMuted (negb (isMuted c)) (on_stream s (track_set_enabled (isMuted c)) w)
  | None => w
  end.

(** [handleIncomingSignal] (lines 77-101), as created by render [c].  The
    promises awaited at lines 86 and 97 have no continuation. *)
Definition handleIncomingSignal (c : Render) (callData : CallData) (w : World) : World :=
  match action callData with
  | act_call => setCallState ringing (setIncomingCall (Some callData) w)
  | act_answer =>
      match peerConnectionRef w, answer callData with
      | Some p, Some a => on_connection p (pc_setRemoteDescription a) w
      | _, _ => w
      end
  | act_reject | act_end => endCall c w
  | act_ice_candidate =>
      match peerConnectionRef w, candidate callData with
      | Some p, Some cd => on_connection p (pc_addIceCandidate cd) w
      | _, _ => w
      end
  end.

(** The channel callback installed by the effect (lines 63-68). *)
Definition on_broadcast (c : Render) (callData : CallData) (w : World) : World :=
  if bool_decide (to callData = userRole c) then handleIncomingSignal c callData w else w.

(** [new RTCPeerConnection] with the handlers of [initializePeerConnection]
    (lines 113-144) created by render [c]; returns the new connection. *)
Definition initializePeerConnection (c : Render) (w : World) : nat * World :=
  (length (connections w),
   set_connections (connections w ++
     [{| closed := false; handlers := c; senders := [];
         localDescription := None; remoteDescription := None;
         remoteCandidates := [] |}]) w).

(** [pc.onicecandidate] (lines 116-125). *)
Definition onicecandidate (c : Render) (cd : option RTCIceCandidateInit) (w : World) : World :=
  match cd, userRole c with
  | Some x, Some _ =>
      sendSignal (signal (userRole c) (other (userRole c)) act_ice_candidate
                         None None (Some x)) w
  | _, _ => w
  end.

(** [pc.onconnectionstatechange] (lines 133-141); [st] is
    [pc.connectionState] when the handler runs. *)
Definition onconnectionstatechange (c : Render) (st : RTCPeerConnectionState)
    (w : World) : World :=
  match st with
  | cs_connected => startCallTimer (setCallState active (setIsConnected true w))
  | cs_disconnected | cs_failed => endCall c w
  | _ => w
  end.

(** The part of [getUserMedia] (lines 147-162) that follows a fulfilled
    request: the stream, of [n] fresh tracks, is stored in the ref and
    returned.  When the request is rejected the error is thrown again. *)
Definition getUserMedia_fulfilled (n : nat) (w : World) : nat * World :=
  (length (streams w),
   set_localStreamRef (Some (length (streams w)))
     (set_streams (streams w ++ [replicate n {| enabled := true; live := true |}]) w)).

Definition suspend (k : Pending) (w : World) : World :=
  set_pending (pending w ++ [k]) w.

(** [startCall] (lines 165-195) up to its first [await]. *)
Definition startCall (c : Render) (w : World) : World :=
  match userRole c with
  | None => w
  | Some _ => suspend (startCall_getUserMedia c) (setCallState calling w)
  end.

(** [acceptCall] (lines 198-230) up to its first [await]. *)
Definition acceptCall (c : Render) (w : World) : World :=
  match incomingCall c, userRole c with
  | Some _, Some _ => suspend (acceptCall_getUserMedia c) w
  | _, _ => w
  end.

(** How an awaited promise settles. *)
Inductive Settled :=
  | fulfilled_stream (n : nat)
  | fulfilled_description (d : RTCSessionDescriptionInit)
  | fulfilled
  | rejected.

(** Lines 172-178 and 203-209: create the connection, store it in the ref
    and add the tracks of stream [s]. *)
Definition attach (c : Render) (s n : nat) (w : World) : nat * World :=
  let '(pc, w) := initializePeerConnection c w in
  (pc, on_connection pc (pc_addTracks s n) (set_peerConnectionRef (Some pc) w)).

(** The code after each [await]; [None] when the promise cannot settle with
    a value of that kind. *)
Definition resume (k : Pending) (r : Settled) (w : World) : option World :=
  match k, r with
  (* startCall: a rejection reaches the [catch] of lines 191-194 *)
  | startCall_getUserMedia c, fulfilled_stream n =>
      let '(s, w) := getUserMedia_fulfilled n w in
      let '(pc, w) := attach c s n w in
      Some (suspend (startCall_createOffer c pc) w)
  | startCall_createOffer c pc, fulfilled_description o =>
      Some (suspend (startCall_setLocalDescription c pc o)
              (on_connection pc (pc_setLocalDescription o) w))
  | startCall_setLocalDescription c pc o, fulfilled =>
      Some (sendSignal (signal (userRole c) (other (userRole c)) act_call
                               (Some o) None None) w)
  | startCall_getUserMedia _, rejected
  | startCall_createOffer _ _, rejected
  | startCall_setLocalDescription _ _ _, rejected =>
      Some (setCallState idle w)
  (* acceptCall: a rejection reaches the [catch] of lines 226-229 *)
  | acceptCall_getUserMedia c, fulfilled_stream n =>
      let '(s, w) := getUserMedia_fulfilled n w in
      let '(pc, w) := attach c s n w in
      match incomingCall c ≫= offer with
      | Some o =>
          Some (suspend (acceptCall_setRemoteDescription c pc)
                  (on_connection pc (pc_setRemoteDescription o) w))
      | None => Some (setIncomingCall None w)
      end
  | acceptCall_setRemoteDescription c pc, fulfilled =>
      Some (suspend (acceptCall_createAnswer c pc) w)
  | acceptCall_createAnswer c pc, fulfilled_description a =>
      Some (suspend (acceptCall_setLocalDescription c pc a)
              (on_connection pc (pc_setLocalDescription a) w))
  | acceptCall_setLocalDescription c pc a, fulfilled =>
      Some (setIncomingCall None
              (sendSignal (signal (userRole c) (incomingCall c ≫= from) act_answer
                                  None (Some a) None) w))
  | acceptCall_getUserMedia c, rejected
  | acceptCall_setRemoteDescription c _, rejected
  | acceptCall_createAnswer c _, rejected
  | acceptCall_setLocalDescription c _ _, rejected =>
      Some (rejectCall c w)
  | _, _ => None
  end.

(** ** Entry points *)

Inductive Button :=
  | btn_moo | btn_boo                 (* lines 340, 363: [setUserRole] *)
  | btn_call | btn_switch             (* lines 442, 450 *)
  | btn_cancel                        (* line 487: [endCall] *)
  | btn_mute | btn_end                (* lines 527, 544 *)
  | btn_reject | btn_accept.          (* lines 601, 611 *)

(** Which buttons render [r] shows (lines 305, 416, 459, 497, 558).  The
    incoming-call modal is a child of [AnimatePresence] (line 557), which
    keeps it on the page while its exit animation runs; [visible] describes
    the modal of the render itself, and clicks on a modal that is on its
    way out are not among the events below. *)
Definition visible (r : Render) (b : Button) : bool :=
  match userRole r with
  | None => match b with btn_moo | btn_boo => true | _ => false end
  | Some _ =>
      match b with
      | btn_moo | btn_boo => false
      | btn_call | btn_switch => bool_decide (callState r = idle)
      | btn_cancel => bool_decide (callState r = calling)
      | btn_mute | btn_end => bool_decide (callState r = active)
      | btn_reject | btn_accept =>
          bool_decide (callState r = ringing) && truthy (incomingCall r)
      end
  end.

(** [setUserRole u] followed by the effect of lines 58-74: when [userRole]
    changed, the previous callback is unsubscribed and, unless the new value
    is [null], the callback of the new render is subscribed. *)
Definition chooseRole (u : UserRole) (w : World) : World :=
  if bool_decide (userRole (react w) = u) then w
  else
    let w := setUserRole u w in
    set_subscription (match u with Some _ => Some (react w) | None => None end) w.

Definition onClick (b : Button) (w : World) : World :=
  let c := react w in
  match b with
  | btn_moo => chooseRole (Some moo) w
  | btn_boo => chooseRole (Some boo) w
  | btn_call => startCall c w
  | btn_switch => chooseRole None w
  | btn_cancel | btn_end => endCall c w
  | btn_mute => toggleMute c w
  | btn_reject => rejectCall c w
  | btn_accept => acceptCall c w
  end.

Inductive Event :=
  | click (b : Button)
  | broadcast (callData : CallData)        (* a 'call-signal' on the channel *)
  | settle (i : nat) (r : Settled)         (* the [i]-th awaited promise settles *)
  | connectionstatechange (pc : nat) (st : RTCPeerConnectionState)
  | icecandidate (pc : nat) (cd : option RTCIceCandidateInit)
  | tick (t : nat)                         (* interval [t] fires (line 293) *)
  | clock (d : nat).                       (* [d] milliseconds pass *)

(** One callback run to completion.  Events that cannot occur (a click on a
    button that is not shown, an event of a closed connection, a cleared
    interval) leave the world as it is. *)
Definition step (w : World) (e : Event) : World :=
  match e with
  | click b => if visible (react w) b then onClick b w else w
  | broadcast callData =>
      match subscription w with
      | Some c => on_broadcast c callData w
      | None => w
      end
  | settle i r =>
      match pending w !! i with
      | Some k => default w (resume k r (set_pending (delete i (pending w)) w))
      | None => w
      end
  | connectionstatechange p st =>
      match connections w !! p with
      | Some pc => if closed pc then w else onconnectionstatechange (handlers pc) st w
      | None => w
      end
  | icecandidate p cd =>
      match connections w !! p with
      | Some pc => if closed pc then w else onicecandidate (handlers pc) cd w
      | None => w
      end
  | tick t =>
      match intervals w !! t with
      | Some true => setCallDuration S w
      | _ => w
      end
  | clock d => set_now (now w + d) w
  end.

Definition run (es : list Event) (w : World) : World := foldl step w es.

Inductive reachable : World -> Prop :=
  | reachable_init : reachable init
  | reachable_step w e : reachable w -> reachable (step w e).

(** ** Observations *)

Definition open_connections (w : World) : nat :=
  length (filter (fun pc => closed pc = false) (connections w)).

Definition live_tracks (w : World) : nat :=
  length (filter (fun t => live t = true) (concat (streams w))).


(** ** Invariants *)

(** The four phases the component ever assigns. *)
Definition declared_phase (p : CallState) : Prop :=
  p = idle \/ p = calling \/ p = ringing \/ p = active.

(** The identity and the installed channel callback: both change only when
    a role button or "Switch User" is clicked. *)
Definition identity (w : World) : UserRole * option Render :=
  (userRole (react w), subscription w).

(** The channel callback, when one is installed, filters on the current
    identity; none is installed while the identity is [null]. *)
Definition subscribed_as (i : UserRole * option Render) : Prop :=
  match i.2 with
  | Some c => userRole c = i.1 /\ userRole c <> None
  | None => i.1 = None
  end.

(** [endCall] sends [action: 'end'] under this test of its own constants
    (line 248). *)
Definition announces_end (c : Render) : bool :=
  truthy (userRole c) &&
  (bool_decide (callState c = active) || bool_decide (callState c = calling)).

(** ** Scenarios

    Event sequences from the initial world, used to exhibit behaviours. *)

Definition call_from (f t : Role) (o : RTCSessionDescriptionInit) : CallData :=
  signal (Some f) (Some t) act_call (Some o) None None 0.
Definition answer_from (f t : Role) (a : RTCSessionDescriptionInit) : CallData :=
  signal (Some f) (Some t) act_answer None (Some a) None 0.
Definition end_from (f t : Role) : CallData :=
  signal (Some f) (Some t) act_end None None None 0.
Definition candidate_from (f t : Role) (cd : RTCIceCandidateInit) : CallData :=
  signal (Some f) (Some t) act_ice_candidate None None (Some cd) 0.

(** Moo presses "Call"; the microphone request is outstanding. *)
Definition moo_places_call : list Event :=
  [click btn_moo; click btn_call].

(** Moo's call goes through: stream, offer, local description, Boo's answer,
    transport connected. *)
Definition moo_call_established : list Event :=
  moo_places_call ++
  [settle 0 (fulfilled_stream 1); settle 0 (fulfilled_description 7);
   settle 0 fulfilled; broadcast (answer_from boo moo 8);
   connectionstatechange 0 cs_connected].

(** Moo's microphone is granted but [createOffer] fails. *)
Definition offer_fails : list Event :=
  moo_places_call ++ [settle 0 (fulfilled_stream 1); settle 0 rejected].

(** Boo is rung by Moo. *)
Definition boo_rings : list Event :=
  [click btn_boo; broadcast (call_from moo boo 7)].

(** Boo accepts; the microphone is granted, the offer applies, but
    [createAnswer] fails. *)
Definition answer_fails : list Event :=
  boo_rings ++
  [click btn_accept; settle 0 (fulfilled_stream 1); settle 0 fulfilled;
   settle 0 rejected].

(** Boo accepts and the answer is sent. *)
Definition boo_accepts : list Event :=
  [click btn_accept; settle 0 (fulfilled_stream 1); settle 0 fulfilled;
   settle 0 (fulfilled_description 9); settle 0 fulfilled].

(** Moo presses "Call" and then "Cancel" before the microphone request
    settles; the request, the offer and the local description then succeed. *)
Definition cancel_then_resolve : list Event :=
  moo_places_call ++
  [click btn_cancel; settle 0 (fulfilled_stream 1);
   settle 0 (fulfilled_description 7); settle 0 fulfilled].

(** After [cancel_then_resolve] Boo answers the call request that was sent
    all the same; Moo presses "Switch User", the transport connects while
    the role screen is shown, and Moo picks the role again. *)
Definition reselect_while_connected : list Event :=
  cancel_then_resolve ++
  [broadcast (answer_from boo moo 8); click btn_switch;
   connectionstatechange 0 cs_connected; click btn_moo].

(** In an established call Moo mutes; a call request from Boo arrives and
    Moo accepts it, which acquires a second stream and connects a second
    peer connection. *)
Definition muted_then_second_call : list Event :=
  moo_call_established ++
  [click btn_mute; broadcast (call_from boo moo 11); click btn_accept;
   settle 0 (fulfilled_stream 1); settle 0 fulfilled;
   settle 0 (fulfilled_description 12); settle 0 fulfilled;
   connectionstatechange 1 cs_connected].

(** ** Closures and resources kept by the component *)

(** The render in which an outstanding continuation was started. *)
Definition closure_of (k : Pending) : Render :=
  match k with
  | startCall_getUserMedia c | startCall_createOffer c _
  | startCall_setLocalDescription c _ _
  | acceptCall_getUserMedia c | acceptCall_setRemoteDescription c _
  | acceptCall_createAnswer c _ | acceptCall_setLocalDescription c _ _ => c
  end.

Definition of_acceptCall (k : Pending) : bool :=
  match k with
  | acceptCall_getUserMedia _ | acceptCall_setRemoteDescription _ _
  | acceptCall_createAnswer _ _ | acceptCall_setLocalDescription _ _ _ => true
  | _ => false
  end.

(** A continuation of [startCall] belongs to a render with an identity and
    phase [idle] (the "Call" button, lines 166 and 416); one of [acceptCall]
    to a render with an identity, a stored request and phase [ringing] (the
    "Accept" button, lines 199 and 558). *)
Definition started_from_button (k : Pending) : Prop :=
  let c := closure_of k in
  userRole c <> None /\
  if of_acceptCall k
  then callState c = ringing /\ incomingCall c <> None
  else callState c = idle.

(** The handlers of a connection belong to such a render too. *)
Definition created_from_button (pc : RTCPeerConnection) : Prop :=
  userRole (handlers pc) <> None /\
  (callState (handlers pc) = idle \/ callState (handlers pc) = ringing).

Definition closures_from_buttons (w : World) : Prop :=
  Forall started_from_button (pending w) /\
  Forall created_from_button (connections w).

(** What each ref holds, when it holds something: an open connection, a
    stream none of whose tracks was stopped, a running interval. *)
Definition holds_open (r : option nat) (l : list RTCPeerConnection) : Prop :=
  forall p, r = Some p -> exists pc, l !! p = Some pc /\ closed pc = false.

Definition holds_live (r : option nat) (l : list MediaStream) : Prop :=
  forall s, r = Some s ->
    exists ts, l !! s = Some ts /\ Forall (fun t => live t = true) ts.

Definition holds_running (r : option nat) (l : list bool) : Prop :=
  forall t, r = Some t -> l !! t = Some true.

Definition refs_in_use (w : World) : Prop :=
  holds_open (peerConnectionRef w) (connections w) /\
  holds_live (localStreamRef w) (streams w) /\
  holds_running (callTimerRef w) (intervals w).

(** The wire format: who sent it, and which payload goes with which action. *)
Definition well_formed (m : CallData) : Prop :=
  from m <> None /\
  match action m with
  | act_call =>
      to m = other (from m) /\ offer m <> None /\ answer m = None /\ candidate m = None
  | act_answer =>
      offer m = None /\ answer m <> None /\ candidate m = None
  | act_reject =>
      offer m = None /\ answer m = None /\ candidate m = None
  | act_end =>
      to m = other (from m) /\ offer m = None /\ answer m = None /\ candidate m = None
  | act_ice_candidate =>
      to m = other (from m) /\ offer m = None /\ answer m = None /\ candidate m <> None
  end.

(** The event is the transport's connected report of connection [p]. *)
Definition is_connected_report (e : Event) : Prop :=
  exists p, e = connectionstatechange p cs_connected.


(** ** Display of the call duration (lines 297-302) *)

(** [n.toString()] for a non-negative integer: its decimal digits. *)
Definition toString (n : nat) : string :=
  NilEmpty.string_of_uint (Nat.to_uint n).

Fixpoint repeat_char (c : ascii) (n : nat) : string :=
  match n with
  | 0 => EmptyString
  | S n => String c (repeat_char c n)
  end.

(** [s.padStart(targetLength, c)] for a pad [c] of one character. *)
Definition padStart (targetLength : nat) (c : ascii) (s : string) : string :=
  repeat_char c (targetLength - String.length s) +:+ s.

(** [formatDuration] (lines 298-302). *)
Definition formatDuration (seconds : nat) : string :=
  let mins := seconds / 60 in
  let secs := seconds mod 60 in
  padStart 2 "0" (toString mins) +:+ ":" +:+ padStart 2 "0" (toString secs).

(** Reading a displayed duration back: the text before the first colon
    and the text after it, as decimal numbers of minutes and seconds. *)
Fixpoint split_at_colon (s : string) : option (string * string) :=
  match s with
  | EmptyString => None
  | String c s =>
      if Ascii.eqb c ":" then Some (EmptyString, s)
      else '(a, b) ← split_at_colon s; Some (String c a, b)
  end.

Definition parseDuration (s : string) : option nat :=
  '(m, sec) ← split_at_colon s;
  dm ← NilEmpty.uint_of_string m;
  ds ← NilEmpty.uint_of_string sec;
  Some (Nat.of_uint dm * 60 + Nat.of_uint ds).

(** * Properties *)

(** ** Proof support *)

Ltac unfold_handlers :=
  unfold onClick, chooseRole, on_broadcast, handleIncomingSignal,
    onconnectionstatechange, onicecandidate, startCall, acceptCall, endCall,
    rejectCall, toggleMute, startCallTimer, attach, initializePeerConnection,
    getUserMedia_fulfilled, suspend, sendSignal, clearInterval, on_connection,
    on_stream in *.

Lemma reachable_run es : reachable (run es init).
Proof.
  unfold run. generalize init, reachable_init.
  induction es as [|e es IH]; intros w Hw; simpl; [done|].
  apply IH. by constructor.
Qed.

Lemma reachable_is_run w : reachable w -> exists es, w = run es init.
Proof.
  induction 1 as [|w e _ [es ->]]; [by exists []|].
  exists (es ++ [e]). unfold run. by rewrite foldl_snoc.
Qed.

Lemma resume_callState k r w w' :
  resume k r w = Some w' ->
  callState (react w') = callState (react w) \/ callState (react w') = idle.
Proof.
  destruct k, r; simpl; unfold_handlers;
    repeat case_match; intros [= <-]; simpl; auto.
Qed.

(** One callback either keeps the phase or assigns one of the four. *)
Lemma step_callState w e :
  callState (react (step w e)) = callState (react w) \/
  declared_phase (callState (react (step w e))).
Proof.
  unfold declared_phase.
  destruct e as [b|m|i r|p st|p cd|t|d]; simpl.
  - destruct (visible _ _); [|by left].
    destruct b; unfold_handlers; repeat case_match; simpl; auto 10.
  - unfold_handlers. repeat case_match; simpl; auto 10.
  - destruct (pending w !! i) as [k|]; [|by left].
    destruct (resume k r _) as [w'|] eqn:E; simpl; [|by left].
    apply resume_callState in E as [->| ->]; simpl; auto.
  - unfold_handlers. repeat case_match; simpl; auto 10.
  - unfold_handlers. repeat case_match; simpl; auto.
  - repeat case_match; simpl; auto.
  - auto.
Qed.

(** ** The phase [ended] (claim C9) *)

(** C9. The phase value ['ended'] of the type [CallState] is never assigned:
    after any sequence of events from the initial world the phase is one of
    [idle], [calling], [ringing] and [active]. *)
Theorem ended_unreachable es :
  callState (react (run es init)) <> ended /\
  declared_phase (callState (react (run es init))).
Proof.
  assert (declared_phase (callState (react (run es init)))) as H.
  { induction es as [|e es IH] using rev_ind; [by left|].
    unfold run in *. rewrite foldl_snoc.
    destruct (step_callState (foldl step init es) e) as [->|]; done. }
  split; [|done]. intros E. rewrite E in H.
  destruct H as [?|[?|[?|?]]]; discriminate.
Qed.

(** ** Messages addressed to someone else (claim C7) *)

Lemma endCall_identity c w : identity (endCall c w) = identity w.
Proof. unfold identity. unfold_handlers. by repeat case_match. Qed.

Lemma rejectCall_identity c w : identity (rejectCall c w) = identity w.
Proof. unfold identity. unfold_handlers. by repeat case_match. Qed.

Lemma toggleMute_identity c w : identity (toggleMute c w) = identity w.
Proof. unfold identity. unfold_handlers. by repeat case_match. Qed.

Lemma startCall_identity c w : identity (startCall c w) = identity w.
Proof. unfold identity. unfold_handlers. by repeat case_match. Qed.

Lemma acceptCall_identity c w : identity (acceptCall c w) = identity w.
Proof. unfold identity. unfold_handlers. by repeat case_match. Qed.

Lemma on_broadcast_identity c m w : identity (on_broadcast c m w) = identity w.
Proof. unfold identity. unfold_handlers. by repeat case_match. Qed.

Lemma onconnectionstatechange_identity c st w :
  identity (onconnectionstatechange c st w) = identity w.
Proof. unfold identity. unfold_handlers. by repeat case_match. Qed.

Lemma onicecandidate_identity c cd w : identity (onicecandidate c cd w) = identity w.
Proof. unfold identity. unfold_handlers. by repeat case_match. Qed.

Lemma resume_identity k r w w' : resume k r w = Some w' -> identity w' = identity w.
Proof.
  unfold identity. destruct k, r; simpl; unfold_handlers;
    by repeat case_match; intros [= <-].
Qed.

Lemma chooseRole_subscribed u w :
  subscribed_as (identity w) -> subscribed_as (identity (chooseRole u w)).
Proof.
  unfold chooseRole. case_bool_decide; [done|].
  intros _. by destruct u.
Qed.

Lemma step_subscribed w e :
  subscribed_as (identity w) -> subscribed_as (identity (step w e)).
Proof.
  destruct e as [b|m|i r|p st|p cd|t|d]; simpl; try done.
  - destruct (visible _ _); [|done].
    destruct b; simpl; auto using chooseRole_subscribed;
      by rewrite ?startCall_identity, ?endCall_identity, ?toggleMute_identity,
                 ?rejectCall_identity, ?acceptCall_identity.
  - destruct (subscription w); [|done]. by rewrite on_broadcast_identity.
  - destruct (pending w !! i) as [k|]; [|done].
    destruct (resume k r _) as [w'|] eqn:E; simpl; [|done].
    by rewrite (resume_identity _ _ _ _ E).
  - destruct (connections w !! p) as [pc|]; [|done].
    destruct (closed pc); [done|]. by rewrite onconnectionstatechange_identity.
  - destruct (connections w !! p) as [pc|]; [|done].
    destruct (closed pc); [done|]. by rewrite onicecandidate_identity.
  - by repeat case_match.
Qed.

Lemma reachable_subscribed w : reachable w -> subscribed_as (identity w).
Proof. induction 1; [done|by apply step_subscribed]. Qed.

(** C7. In every reachable world, whatever the phase, a broadcast whose
    recipient [to] differs from the local identity changes nothing: the
    whole world (phase, stored request, duration, mute flag, refs, browser
    objects) is as before, and in particular nothing is sent. *)
Theorem misaddressed_signal_ignored w callData :
  reachable w -> to callData <> userRole (react w) ->
  step w (broadcast callData) = w.
Proof.
  intros Hw Hto. apply reachable_subscribed in Hw.
  unfold subscribed_as, identity in Hw. simpl in *.
  destruct (subscription w) as [c|]; [|done].
  destruct Hw as [Hc _]. unfold on_broadcast.
  rewrite bool_decide_eq_false_2; [done|congruence].
Qed.

(** C7 at an instance: during Moo's established call, a call-ended message
    addressed to Boo. *)
Lemma misaddressed_signal_ignored_witness :
  step (run moo_call_established init) (broadcast (end_from moo boo))
  = run moo_call_established init.
Proof.
  apply (misaddressed_signal_ignored (run moo_call_established init)).
  - apply reachable_run.
  - discriminate.
Defined.

(** ** Ending a call (claims C2, C3, C8) *)

Section EndCall.
Variables (c : Render) (w : World).

Lemma endCall_sent :
  sent (endCall c w) =
  sent w ++ (if announces_end c
             then [signal (userRole c) (other (userRole c)) act_end
                          None None None (now w)]
             else []).
Proof.
  unfold endCall, announces_end.
  destruct (_ && _); unfold_handlers; repeat case_match; simpl;
    by rewrite ?app_nil_r.
Qed.

Lemma endCall_react :
  react (endCall c w) =
  {| userRole := userRole (react w); callState := idle; callDuration := 0;
     isConnected := false; incomingCall := None; isMuted := false |}.
Proof.
  unfold endCall. unfold_handlers.
  repeat (simpl in *; case_match); simpl in *; repeat split; congruence.
Qed.

Lemma endCall_refs :
  peerConnectionRef (endCall c w) = None /\
  localStreamRef (endCall c w) = None /\
  callTimerRef (endCall c w) = None.
Proof.
  unfold endCall. unfold_handlers. by repeat (simpl; case_match).
Qed.

Lemma endCall_connections :
  connections (endCall c w) =
  match peerConnectionRef w with
  | Some p => alter pc_close p (connections w)
  | None => connections w
  end.
Proof.
  unfold endCall. unfold_handlers.
  repeat (simpl in *; case_match); simpl in *; repeat split; congruence.
Qed.

Lemma endCall_streams :
  streams (endCall c w) =
  match localStreamRef w with
  | Some s => alter (map track_stop) s (streams w)
  | None => streams w
  end.
Proof.
  unfold endCall. unfold_handlers.
  repeat (simpl in *; case_match); simpl in *; repeat split; congruence.
Qed.

Lemma endCall_intervals :
  intervals (endCall c w) =
  match callTimerRef w with
  | Some t => <[t := false]> (intervals w)
  | None => intervals w
  end.
Proof.
  unfold endCall. unfold_handlers.
  repeat (simpl in *; case_match); simpl in *; repeat split; congruence.
Qed.

Lemma endCall_frame :
  subscription (endCall c w) = subscription w /\
  pending (endCall c w) = pending w /\
  now (endCall c w) = now w.
Proof.
  unfold endCall. unfold_handlers.
  repeat (simpl in *; case_match); simpl in *; repeat split; congruence.
Qed.
End EndCall.

(** Two worlds with the same fields are the same world. *)
Lemma World_eq (w1 w2 : World) :
  react w1 = react w2 -> peerConnectionRef w1 = peerConnectionRef w2 ->
  localStreamRef w1 = localStreamRef w2 -> callTimerRef w1 = callTimerRef w2 ->
  connections w1 = connections w2 -> streams w1 = streams w2 ->
  intervals w1 = intervals w2 -> sent w1 = sent w2 ->
  subscription w1 = subscription w2 -> pending w1 = pending w2 ->
  now w1 = now w2 -> w1 = w2.
Proof. destruct w1, w2; simpl; intros; by subst. Qed.

(** When the [endCall] that runs reads a phase other than [active] and
    [calling], running it on a world that an [endCall] has already reset
    changes nothing. *)
Lemma endCall_again c1 c2 w :
  announces_end c2 = false -> endCall c2 (endCall c1 w) = endCall c1 w.
Proof.
  intros Hc. destruct (endCall_refs c1 w) as (Hp & Hs & Ht).
  destruct (endCall_frame c2 (endCall c1 w)) as (? & ? & ?).
  apply World_eq; try done.
  - by rewrite !endCall_react.
  - by rewrite (proj1 (endCall_refs _ _)), Hp.
  - by rewrite (proj1 (proj2 (endCall_refs _ _))), Hs.
  - by rewrite (proj2 (proj2 (endCall_refs _ _))), Ht.
  - by rewrite (endCall_connections c2), Hp.
  - by rewrite (endCall_streams c2), Hs.
  - by rewrite (endCall_intervals c2), Ht.
  - by rewrite (endCall_sent c2), Hc, app_nil_r.
Qed.

(** C3, counterexample. The phase is [active], the call-ended message is
    inbound and addressed to the local identity, and a call-ended message
    is sent back to the counterpart. *)
Lemma inbound_call_ended_answered_with_call_ended :
  let w := run reselect_while_connected init in
  let w' := step w (broadcast (end_from boo moo)) in
  callState (react w) = active /\
  userRole (react w) = Some moo /\
  callState (react w') = idle /\
  sent w' = sent w ++ [signal (Some moo) (Some boo) act_end None None None 0].
Proof. vm_compute. done. Qed.

(** C3, as amended. An inbound call-ended message addressed to the local
    identity runs [endCall]: the phase becomes [idle], the referenced peer
    connection is closed and the tracks of the referenced stream are
    stopped, and both refs are cleared.  Whether a call-ended message is
    sent to the counterpart does not depend on what triggered [endCall]: it
    is sent exactly when the identity is set and the phase that this
    [endCall] reads is [active] or [calling].  The local end action, which
    reads the current phase [active], sends it. *)
Theorem call_ended_teardown w c callData :
  subscription w = Some c -> to callData = userRole c ->
  action callData = act_end -> visible (react w) btn_end = true ->
  let w' := step w (broadcast callData) in
  let ended_to_counterpart r :=
    signal (userRole r) (other (userRole r)) act_end None None None (now w) in
  callState (react w') = idle /\
  peerConnectionRef w' = None /\ localStreamRef w' = None /\
  (forall p pc, peerConnectionRef w = Some p -> connections w !! p = Some pc ->
     connections w' !! p = Some (pc_close pc)) /\
  (forall s ts, localStreamRef w = Some s -> streams w !! s = Some ts ->
     streams w' !! s = Some (map track_stop ts)) /\
  sent w' = sent w ++ (if announces_end c then [ended_to_counterpart c] else []) /\
  sent (step w (click btn_end)) = sent w ++ [ended_to_counterpart (react w)].
Proof.
  intros Hsub Hto Hact Hvis. simpl. rewrite Hsub, Hvis. unfold on_broadcast.
  rewrite bool_decide_eq_true_2 by done.
  unfold handleIncomingSignal. rewrite Hact.
  destruct (endCall_refs c w) as (Hp & Hs & _).
  rewrite endCall_react, Hp, Hs, endCall_connections, endCall_streams, !endCall_sent.
  repeat split.
  - intros p pc -> Hpc. by rewrite list_lookup_alter_eq, Hpc.
  - intros s ts -> Hts. by rewrite list_lookup_alter_eq, Hts.
  - unfold visible in Hvis. unfold announces_end.
    destruct (userRole (react w)); [|done].
    apply bool_decide_eq_true in Hvis. by rewrite Hvis.
Qed.

(** C3 as amended, at an instance: in Moo's established call the channel
    callback belongs to the render in which Moo was chosen, whose phase was
    [idle]; an inbound call-ended message sends nothing, the "End" button
    sends call-ended. *)
Lemma call_ended_teardown_witness :
  let w := run moo_call_established init in
  callState (react (step w (broadcast (end_from boo moo)))) = idle /\
  sent (step w (broadcast (end_from boo moo))) = sent w /\
  sent (step w (click btn_end)) = sent w ++ [end_from moo boo].
Proof.
  pose proof (call_ended_teardown (run moo_call_established init)
    {| userRole := Some moo; callState := idle; callDuration := 0;
       isConnected := false; incomingCall := None; isMuted := false |}
    (end_from boo moo) eq_refl eq_refl eq_refl eq_refl) as H.
  cbv zeta in H. destruct H as (H1 & _ & _ & _ & _ & H2 & H3).
  cbv zeta. split; [exact H1|]. split.
  - rewrite H2. vm_compute. reflexivity.
  - rewrite H3. vm_compute. reflexivity.
Defined.

(** C8, at the failing input. After [reselect_while_connected] the channel
    callback belongs to a render whose phase was [active].  A first
    call-ended message returns the participant to [idle]; a second one,
    received while idle, changes no state but sends a further call-ended
    message: the [endCall] reached from the channel callback tests the
    [callState] constant of its own render (line 248), which is still
    [active]. *)
Lemma second_call_ended_sends_call_ended :
  let w := run reselect_while_connected init in
  let w1 := step w (broadcast (end_from boo moo)) in
  let w2 := step w1 (broadcast (end_from boo moo)) in
  callState (react w1) = idle /\
  option_map callState (subscription w1) = Some active /\
  set_sent [] w2 = set_sent [] w1 /\
  sent w2 = sent w1 ++ [signal (Some moo) (Some boo) act_end None None None 0].
Proof. vm_compute. done. Qed.

(** The [catch] of [startCall] and of [acceptCall] releases nothing: a
    rejected step leaves the refs, the connections and the streams as they
    were. *)
Lemma rejected_step_releases_nothing k w w' :
  resume k rejected w = Some w' ->
  peerConnectionRef w' = peerConnectionRef w /\
  localStreamRef w' = localStreamRef w /\
  connections w' = connections w /\ streams w' = streams w.
Proof.
  destruct k; simpl; unfold_handlers; repeat case_match; by intros [= <-].
Qed.

(** C2, at the failing inputs. When [createOffer] fails after the microphone
    was granted, and when [createAnswer] fails while accepting, the phase
    returns from [calling] (from [ringing]) to [idle] while the peer
    connection stays open and referenced and the audio track stays live.
    The "End" button of an established call, which runs [endCall], leaves
    neither. *)
Lemma failed_setup_leaves_session_and_audio :
  (let w := run offer_fails init in
   callState (react (run (removelast offer_fails) init)) = calling /\
   callState (react w) = idle /\
   peerConnectionRef w = Some 0 /\ open_connections w = 1 /\ live_tracks w = 1) /\
  (let w := run answer_fails init in
   callState (react (run (removelast answer_fails) init)) = ringing /\
   callState (react w) = idle /\
   peerConnectionRef w = Some 0 /\ open_connections w = 1 /\ live_tracks w = 1) /\
  (let w := run (moo_call_established ++ [click btn_end]) init in
   callState (react w) = idle /\
   peerConnectionRef w = None /\ open_connections w = 0 /\ live_tracks w = 0).
Proof. vm_compute. done. Qed.

(** ** An inbound call request (claim C1) *)

(** C1, counterexample. Moo is in phase [calling]; a call request from Boo
    addressed to Moo arrives.  No call-rejected message (no message at all)
    is sent, the phase becomes [ringing] and the request is stored. *)
Lemma call_request_while_calling_rings :
  let w := run moo_places_call init in
  let w' := step w (broadcast (call_from boo moo 7)) in
  callState (react w) = calling /\ incomingCall (react w) = None /\
  callState (react w') = ringing /\
  incomingCall (react w') = Some (call_from boo moo 7) /\
  sent w' = [].
Proof. vm_compute. done. Qed.

(** C1, as amended. In every phase, idle or not, an inbound call request
    addressed to the local identity is stored as the pending inbound request
    and the phase becomes [ringing]; nothing else changes, and no message is
    sent. *)
Theorem call_request_always_rings w c callData :
  subscription w = Some c -> to callData = userRole c ->
  action callData = act_call ->
  let w' := step w (broadcast callData) in
  w' = setCallState ringing (setIncomingCall (Some callData) w) /\
  callState (react w') = ringing /\
  incomingCall (react w') = Some callData /\
  sent w' = sent w.
Proof.
  intros Hsub Hto Hact. simpl. rewrite Hsub. unfold on_broadcast.
  rewrite bool_decide_eq_true_2 by done.
  unfold handleIncomingSignal. by rewrite Hact.
Qed.

(** C1 as amended, at an instance: a call request from Boo during Moo's
    established call. *)
Lemma call_request_always_rings_witness :
  let w := run moo_call_established init in
  callState (react w) = active /\
  callState (react (step w (broadcast (call_from boo moo 11)))) = ringing /\
  sent (step w (broadcast (call_from boo moo 11))) = sent w.
Proof.
  pose proof (call_request_always_rings (run moo_call_established init)
    {| userRole := Some moo; callState := idle; callDuration := 0;
       isConnected := false; incomingCall := None; isMuted := false |}
    (call_from boo moo 11) eq_refl eq_refl eq_refl) as (_ & H1 & _ & H2).
  cbv zeta. split; [reflexivity|]. split; [exact H1|exact H2].
Defined.

(** ** Inbound candidates (claim C4) *)

(** C4, counterexample. Boo is [ringing] and has no peer connection yet; a
    candidate from Moo addressed to Boo arrives.  The world is exactly as
    before, so nothing remembers the candidate; after Boo accepts, the peer
    connection that is then created has received no candidate. *)
Lemma candidate_while_ringing_is_dropped :
  let w := run boo_rings init in
  let w' := step w (broadcast (candidate_from moo boo 5)) in
  callState (react w) = ringing /\ peerConnectionRef w = None /\
  w' = w /\
  map remoteCandidates (connections (run boo_accepts w')) = [[]] /\
  callState (react (run boo_accepts w')) = ringing.
Proof. vm_compute. done. Qed.

(** C4, as amended. An inbound candidate addressed to the local identity is
    handed to the peer connection that [peerConnectionRef] holds when the
    message arrives, provided the message carries a candidate.  When the ref
    is empty (as it is while ringing before accept) the message leaves the
    world unchanged: the candidate is not kept for later. *)
Theorem candidate_needs_referenced_session w c callData :
  subscription w = Some c -> to callData = userRole c ->
  action callData = act_ice_candidate ->
  let w' := step w (broadcast callData) in
  (peerConnectionRef w = None -> w' = w) /\
  (candidate callData = None -> w' = w) /\
  (forall p cd, peerConnectionRef w = Some p -> candidate callData = Some cd ->
     w' = on_connection p (pc_addIceCandidate cd) w /\
     forall pc, connections w !! p = Some pc ->
       remoteCandidates <$> connections w' !! p
       = Some (remoteCandidates pc ++ [cd])).
Proof.
  intros Hsub Hto Hact. simpl. rewrite Hsub. unfold on_broadcast.
  rewrite bool_decide_eq_true_2 by done.
  unfold handleIncomingSignal. rewrite Hact.
  split; [by intros ->|].
  split; [intros ->; by destruct (peerConnectionRef w)|].
  intros p cd -> ->. split; [done|].
  intros pc Hpc. unfold on_connection. simpl.
  by rewrite list_lookup_alter_eq, Hpc.
Qed.

(** C4 as amended, at an instance: the candidate that reaches Boo while
    ringing. *)
Lemma candidate_needs_referenced_session_witness :
  step (run boo_rings init) (broadcast (candidate_from moo boo 5))
  = run boo_rings init.
Proof.
  exact (proj1 (candidate_needs_referenced_session (run boo_rings init)
    {| userRole := Some boo; callState := idle; callDuration := 0;
       isConnected := false; incomingCall := None; isMuted := false |}
    (candidate_from moo boo 5) eq_refl eq_refl eq_refl) eq_refl).
Defined.

(** ** Cancelling during an outstanding step (claim C5) *)

(** C5, counterexample. Moo presses "Call" and cancels while the microphone
    request is outstanding, which returns the phase to [idle].  When the
    request, the offer and the local description then settle, the stream and
    a new peer connection are stored in the refs and the call request is
    sent, after the call-ended message of the cancellation. *)
Lemma cancelled_call_request_still_sent :
  let w0 := run (moo_places_call ++ [click btn_cancel]) init in
  let w := run cancel_then_resolve init in
  callState (react w0) = idle /\ length (pending w0) = 1 /\
  callState (react w) = idle /\
  sent w = [end_from moo boo; call_from moo boo 7] /\
  peerConnectionRef w = Some 0 /\ open_connections w = 1 /\ live_tracks w = 1.
Proof. vm_compute. done. Qed.

(** C5, as amended. When the phase is [idle] while a step of placing or
    accepting a call is outstanding, the step's continuation still runs when
    it settles.  It leaves the phase [idle]; but its result is used, not
    discarded: a granted microphone request, of [startCall] and of
    [acceptCall] alike, stores the stream and a new peer connection in the
    refs and goes on to the next step; a created offer or answer is applied
    and the next step awaited; and the last step of [startCall] sends the
    call request, that of [acceptCall] the call answer. *)
Theorem settled_step_continues_after_cancel w i r :
  callState (react w) = idle ->
  let w' := step w (settle i r) in
  let rest := delete i (pending w) in
  let stored n :=
    localStreamRef w' = Some (length (streams w)) /\
    streams w' = streams w ++ [replicate n {| enabled := true; live := true |}] /\
    peerConnectionRef w' = Some (length (connections w)) /\
    length (connections w') = S (length (connections w)) in
  callState (react w') = idle /\
  (forall c n, pending w !! i = Some (startCall_getUserMedia c) ->
     r = fulfilled_stream n ->
     localStreamRef w' = Some (length (streams w)) /\
     peerConnectionRef w' = Some (length (connections w)) /\
     length (connections w') = S (length (connections w))) /\
  (forall c pc o, pending w !! i = Some (startCall_setLocalDescription c pc o) ->
     r = fulfilled ->
     sent w' = sent w ++ [signal (userRole c) (other (userRole c)) act_call
                                 (Some o) None None (now w)]) /\
  (forall c pc a, pending w !! i = Some (acceptCall_setLocalDescription c pc a) ->
     r = fulfilled ->
     sent w' = sent w ++ [signal (userRole c) (incomingCall c ≫= from) act_answer
                                 None (Some a) None (now w)]) /\
  (forall c n, pending w !! i = Some (startCall_getUserMedia c) ->
     r = fulfilled_stream n ->
     stored n /\
     pending w' = rest ++ [startCall_createOffer c (length (connections w))]) /\
  (forall c n, pending w !! i = Some (acceptCall_getUserMedia c) ->
     r = fulfilled_stream n ->
     stored n /\
     pending w' = rest ++
       match incomingCall c ≫= offer with
       | Some _ => [acceptCall_setRemoteDescription c (length (connections w))]
       | None => []
       end) /\
  (forall c pc o, pending w !! i = Some (startCall_createOffer c pc) ->
     r = fulfilled_description o ->
     pending w' = rest ++ [startCall_setLocalDescription c pc o] /\
     connections w' = alter (pc_setLocalDescription o) pc (connections w)) /\
  (forall c pc, pending w !! i = Some (acceptCall_setRemoteDescription c pc) ->
     r = fulfilled ->
     pending w' = rest ++ [acceptCall_createAnswer c pc]) /\
  (forall c pc a, pending w !! i = Some (acceptCall_createAnswer c pc) ->
     r = fulfilled_description a ->
     pending w' = rest ++ [acceptCall_setLocalDescription c pc a] /\
     connections w' = alter (pc_setLocalDescription a) pc (connections w)).
Proof.
  intros Hidle. simpl. split; [|split; [|split; [|split; [|split; [|split; [|split; [|split]]]]]]].
  - destruct (pending w !! i) as [k|]; [|done].
    destruct (resume k r _) as [w'|] eqn:E; [|done]. simpl.
    by apply resume_callState in E as [-> | ->].
  - intros c n -> ->. simpl. unfold_handlers. simpl.
    by rewrite length_alter, length_app, Nat.add_1_r.
  - by intros c pc o -> ->.
  - by intros c pc a -> ->.
  - intros c n -> ->. simpl. unfold_handlers. simpl.
    by rewrite length_alter, length_app, Nat.add_1_r.
  - intros c n -> ->. simpl. unfold_handlers.
    destruct (incomingCall c ≫= offer); simpl;
      by rewrite ?length_alter, length_app, Nat.add_1_r, ?app_nil_r.
  - by intros c pc o -> ->.
  - by intros c pc -> ->.
  - by intros c pc a -> ->.
Qed.

(** C5 as amended, at an instance: the last step of the cancelled
    [startCall] of [cancel_then_resolve]. *)
Lemma settled_step_continues_after_cancel_witness :
  let w := run (removelast cancel_then_resolve) init in
  callState (react w) = idle /\
  sent (step w (settle 0 fulfilled)) = sent w ++ [call_from moo boo 7].
Proof.
  pose proof (settled_step_continues_after_cancel
    (run (removelast cancel_then_resolve) init) 0 fulfilled eq_refl)
    as (_ & _ & H & _).
  cbv zeta. split; [reflexivity|].
  exact (H {| userRole := Some moo; callState := idle; callDuration := 0;
              isConnected := false; incomingCall := None; isMuted := false |}
           0 7 eq_refl eq_refl).
Defined.

(** ** The call timer (claim C6) *)





(** ** Muting (claim C10) *)

(** C10, counterexample. Moo mutes during a call and then accepts a second
    call, which acquires a new stream while the mute flag is set.  The new
    track is enabled; after the mute button is pressed twice the flag is
    back at its value but the track is disabled. *)
Lemma toggling_twice_disables_track :
  let w := run muted_then_second_call init in
  let w2 := run [click btn_mute; click btn_mute] w in
  callState (react w) = active /\ localStreamRef w = Some 1 /\
  isMuted (react w) = true /\
  streams w !! 1 = Some [{| enabled := true; live := true |}] /\
  isMuted (react w2) = true /\ localStreamRef w2 = Some 1 /\
  streams w2 !! 1 = Some [{| enabled := false; live := true |}].
Proof. vm_compute. done. Qed.

(** C10, as amended. Without a local stream [toggleMute] changes nothing.
    With one, two successive presses return the mute flag to its value and
    leave every track of the stream enabled exactly when the flag says
    "not muted"; when the tracks agreed with the flag beforehand (enabled if
    and only if not muted), the world after the two presses is the world
    before them. *)
Theorem toggleMute_twice w :
  let w1 := toggleMute (react w) w in
  let w2 := toggleMute (react w1) w1 in
  match localStreamRef w with
  | None => forall c, toggleMute c w = w
  | Some s =>
      isMuted (react w2) = isMuted (react w) /\
      localStreamRef w2 = Some s /\
      (forall ts, streams w !! s = Some ts ->
         streams w2 !! s
         = Some (map (track_set_enabled (negb (isMuted (react w)))) ts)) /\
      ((forall ts, streams w !! s = Some ts ->
          Forall (fun t => enabled t = negb (isMuted (react w))) ts) ->
       w2 = w)
  end.
Proof.
  unfold toggleMute. destruct (localStreamRef w) as [s|] eqn:Hs; [|done].
  simpl. rewrite Hs. simpl.
  rewrite list_alter_alter_eq, negb_involutive.
  split; [done|]. split; [done|]. split.
  - intros ts Hts. rewrite list_lookup_alter_eq, Hts. simpl.
    f_equal. rewrite <- list_fmap_compose. by apply list_fmap_ext.
  - intros Hagree. apply World_eq; simpl; try done.
    + by destruct (react w).
    + rewrite ?list_alter_alter_eq.
      etrans; [|by apply (list_alter_id id _ s)].
      apply list_alter_ext; [|done].
      intros ts Hts. specialize (Hagree ts Hts). clear Hts. simpl.
      induction Hagree as [|t ts Ht _ IH]; [done|].
      simpl. rewrite IH. f_equal. destruct t; simpl in *. by subst.
Qed.

(** * Further properties of the component *)

(** ** Closures held by continuations and connections *)

Ltac solve_closures :=
  repeat first
    [ done
    | split
    | apply Forall_app_2
    | apply Forall_delete
    | apply Forall_alter; [|by intros [] ? ?]
    | apply Forall_cons_2
    | apply Forall_nil_2 ];
  unfold started_from_button, created_from_button in *; simpl in *;
  try (intuition (auto; congruence)).

Lemma resume_closures k r w w' :
  started_from_button k -> closures_from_buttons w ->
  resume k r w = Some w' -> closures_from_buttons w'.
Proof.
  unfold closures_from_buttons.
  intros Hk (Hp & Hc).
  destruct k, r; simpl in *; unfold_handlers; simpl;
    repeat case_match; intros [= <-]; simpl; solve_closures.
Qed.

Lemma step_closures w e :
  closures_from_buttons w -> closures_from_buttons (step w e).
Proof.
  intros Hw. destruct e as [b|m|i r|p st|p cd|t|d]; simpl; try done.
  - destruct (visible _ _) eqn:Hvis; [|done].
    destruct Hw as (Hp & Hc). unfold closures_from_buttons, visible in *.
    destruct b; unfold_handlers; repeat (simpl in *; case_match);
      try done; simpl; solve_closures.
    all: repeat match goal with
         | H : _ && _ = true |- _ => apply andb_true_iff in H as [? ?]
         | H : bool_decide _ = true |- _ => apply bool_decide_eq_true in H
         end; try congruence.
  - destruct Hw as (Hp & Hc). unfold closures_from_buttons.
    unfold_handlers; repeat (simpl in *; case_match); try done; simpl;
      solve_closures.
  - destruct (pending w !! i) as [k|] eqn:Hk; [|done].
    destruct (resume k r _) as [w'|] eqn:E; simpl; [|done].
    apply (resume_closures _ _ _ _ (Forall_lookup_1 _ _ _ _ (proj1 Hw) Hk)) in E;
      [done|].
    destruct Hw as (Hp & Hc). split; simpl; [by apply Forall_delete|done].
  - destruct Hw as (Hp & Hc). unfold closures_from_buttons.
    unfold_handlers; repeat (simpl in *; case_match); try done; simpl;
      solve_closures.
  - destruct Hw as (Hp & Hc). unfold closures_from_buttons.
    unfold_handlers; repeat (simpl in *; case_match); try done; simpl;
      solve_closures.
  - by repeat case_match.
Qed.

Lemma reachable_closures w : reachable w -> closures_from_buttons w.
Proof.
  induction 1; [by split; constructor|by apply step_closures].
Qed.

(** ** What the refs hold *)

Lemma holds_open_alter f q r l :
  (forall x, closed (f x) = closed x) ->
  holds_open r l -> holds_open r (alter f q l).
Proof.
  intros Hf H p Hp. destruct (H p Hp) as (pc & Hpc & Hc).
  destruct (decide (q = p)) as [->|Hne].
  - exists (f pc). by rewrite list_lookup_alter_eq, Hpc, Hf.
  - exists pc. by rewrite list_lookup_alter_ne.
Qed.

Lemma holds_open_app r l l' : holds_open r l -> holds_open r (l ++ l').
Proof.
  intros H p Hp. destruct (H p Hp) as (pc & Hpc & Hc).
  exists pc. split; [by apply lookup_app_l_Some|done].
Qed.

Lemma holds_open_new l x : closed x = false -> holds_open (Some (length l)) (l ++ [x]).
Proof. intros Hx p [= <-]. exists x. by rewrite list_lookup_middle. Qed.

Lemma holds_live_alter f q r l :
  (forall x, live (f x) = live x) ->
  holds_live r l -> holds_live r (alter (map f) q l).
Proof.
  intros Hf H s Hs. destruct (H s Hs) as (ts & Hts & Hl).
  destruct (decide (q = s)) as [->|Hne].
  - exists (map f ts). rewrite list_lookup_alter_eq, Hts. split; [done|].
    apply Forall_fmap. eapply Forall_impl; [done|]. intros t. simpl. by rewrite Hf.
  - exists ts. by rewrite list_lookup_alter_ne.
Qed.

Lemma holds_live_new l n :
  holds_live (Some (length l)) (l ++ [replicate n {| enabled := true; live := true |}]).
Proof.
  intros s [= <-]. eexists. rewrite list_lookup_middle by done.
  split; [done|]. by apply Forall_replicate.
Qed.

Lemma holds_running_app r l l' : holds_running r l -> holds_running r (l ++ l').
Proof. intros H t Ht. by apply lookup_app_l_Some, H. Qed.

Lemma holds_running_new l : holds_running (Some (length l)) (l ++ [true]).
Proof. intros t [= <-]. by rewrite list_lookup_middle. Qed.

Ltac solve_refs :=
  unfold refs_in_use in *; simpl in *;
  repeat match goal with H : _ /\ _ |- _ => destruct H end;
  repeat first
    [ done
    | split
    | apply holds_open_new; done
    | apply holds_live_new
    | apply holds_running_new
    | apply holds_open_alter; [by intros []|]
    | apply holds_live_alter; [by intros []|]
    | apply holds_open_app
    | apply holds_running_app
    | by intros ? [=] ].

Lemma resume_refs k r w w' :
  refs_in_use w -> resume k r w = Some w' -> refs_in_use w'.
Proof.
  intros Hw.
  destruct k, r; simpl in *; unfold_handlers; simpl;
    repeat case_match; intros [= <-]; solve_refs.
Qed.

Lemma step_refs w e : refs_in_use w -> refs_in_use (step w e).
Proof.
  intros Hw. destruct e as [b|m|i r|p st|p cd|t|d]; simpl; try done.
  - destruct (visible _ _); [|done].
    destruct b; unfold_handlers; repeat (simpl in *; case_match);
      try done; solve_refs.
  - unfold_handlers; repeat (simpl in *; case_match); try done; solve_refs.
  - destruct (pending w !! i) as [k|] eqn:Hk; [|done].
    destruct (resume k r _) as [w'|] eqn:E; simpl; [|done].
    by apply resume_refs in E.
  - unfold_handlers; repeat (simpl in *; case_match); try done; solve_refs.
  - unfold_handlers; repeat (simpl in *; case_match); try done; solve_refs.
  - by repeat case_match.
Qed.

Lemma reachable_refs w : reachable w -> refs_in_use w.
Proof.
  induction 1; [|by apply step_refs].
  repeat split; by intros ? [=].
Qed.

(** ** What is sent *)

Lemma truthy_Some {A} (o : option A) : truthy o = true -> o <> None.
Proof. by destruct o. Qed.

Ltac solve_sent :=
  simpl in *;
  repeat first
    [ done
    | apply Forall_app_2; [done|]
    | apply Forall_cons_2; [|by apply Forall_nil_2] ];
  unfold well_formed, started_from_button in *; simpl in *;
  repeat match goal with
         | H : _ && _ = true |- _ => apply andb_true_iff in H as [? ?]
         | H : truthy _ = true |- _ => apply truthy_Some in H
         | H : _ /\ _ |- _ => destruct H
         end;
  try (intuition congruence).

Lemma resume_sent k r w w' :
  started_from_button k -> Forall well_formed (sent w) ->
  resume k r w = Some w' -> Forall well_formed (sent w').
Proof.
  intros Hk Hw.
  destruct k, r; simpl in *; unfold_handlers; simpl;
    repeat case_match; intros [= <-]; solve_sent.
Qed.

Lemma step_sent w e :
  closures_from_buttons w -> Forall well_formed (sent w) ->
  Forall well_formed (sent (step w e)).
Proof.
  intros Hc Hw. destruct e as [b|m|i r|p st|p cd|t|d]; simpl; try done.
  - destruct (visible _ _); [|done].
    destruct b; unfold_handlers; repeat (simpl in *; case_match);
      try done; solve_sent.
  - unfold_handlers; repeat (simpl in *; case_match); try done; solve_sent.
  - destruct (pending w !! i) as [k|] eqn:Hk; [|done].
    destruct (resume k r _) as [w'|] eqn:E; simpl; [|done].
    by apply (resume_sent _ _ _ _ (Forall_lookup_1 _ _ _ _ (proj1 Hc) Hk)) in E.
  - unfold_handlers; repeat (simpl in *; case_match); try done; solve_sent.
  - unfold_handlers; repeat (simpl in *; case_match); try done; solve_sent.
  - by repeat case_match.
Qed.

Lemma resume_sent_grows k r w w' :
  resume k r w = Some w' ->
  exists l, sent w' = sent w ++ l /\ length l <= 1.
Proof.
  destruct k, r; simpl in *; unfold_handlers; simpl;
    repeat case_match; intros [= <-]; simpl;
    first [ by exists []; rewrite app_nil_r; auto
          | eexists [_]; split; [reflexivity|done] ].
Qed.

Lemma step_sent_grows w e :
  exists l, sent (step w e) = sent w ++ l /\ length l <= 1.
Proof.
  destruct e as [b|m|i r|p st|p cd|t|d]; simpl.
  - destruct (visible _ _); [|by exists []; rewrite app_nil_r; auto].
    destruct b; unfold_handlers; repeat (simpl in *; case_match); simpl;
      first [ by exists []; rewrite app_nil_r; auto
            | eexists [_]; split; [reflexivity|done] ].
  - unfold_handlers; repeat (simpl in *; case_match); simpl;
      first [ by exists []; rewrite app_nil_r; auto
            | eexists [_]; split; [reflexivity|done] ].
  - destruct (pending w !! i) as [k|] eqn:Hk;
      [|by exists []; rewrite app_nil_r; auto].
    destruct (resume k r _) as [w'|] eqn:E; simpl;
      [|by exists []; rewrite app_nil_r; auto].
    by apply resume_sent_grows in E.
  - unfold_handlers; repeat (simpl in *; case_match); simpl;
      first [ by exists []; rewrite app_nil_r; auto
            | eexists [_]; split; [reflexivity|done] ].
  - unfold_handlers; repeat (simpl in *; case_match); simpl;
      first [ by exists []; rewrite app_nil_r; auto
            | eexists [_]; split; [reflexivity|done] ].
  - repeat case_match; by exists []; rewrite app_nil_r; auto.
  - by exists []; rewrite app_nil_r; auto.
Qed.

(** X1. After any sequence of events, whatever a ref holds is in use: the
    referenced peer connection exists and is open, the referenced stream
    exists and none of its tracks is stopped, the referenced interval is
    running. *)
Theorem refs_hold_resources_in_use es : refs_in_use (run es init).
Proof. apply reachable_refs, reachable_run. Qed.

Lemma reachable_sent w : reachable w -> Forall well_formed (sent w).
Proof.
  induction 1 as [|w e Hw IH]; [by constructor|].
  by apply step_sent; [apply reachable_closures|].
Qed.

(** X2. Every message the component ever sends names its sender, and its
    payload matches its action: a call request carries an offer only, an
    answer an answer only, a candidate message a candidate only, call-ended
    and call-rejected nothing; call requests, call-ended and candidate
    messages are addressed to the other role. *)
Theorem sent_signals_well_formed es : Forall well_formed (sent (run es init)).
Proof. apply reachable_sent, reachable_run. Qed.

(** X3. No callback removes or rewrites a message already sent, and one
    callback sends at most one message. *)
Theorem each_callback_sends_at_most_one w e :
  exists l, sent (step w e) = sent w ++ l /\ length l <= 1.
Proof. apply step_sent_grows. Qed.

(** X4. When an open peer connection reports disconnected or failed,
    [endCall] runs: the phase becomes [idle] and the three refs are cleared.
    No message is sent: the handlers of a connection belong to the render of
    the "Call" or "Accept" click, whose phase is [idle] or [ringing], so the
    test of line 248 fails. *)
Theorem transport_loss_notifies_nobody es p pc :
  let w := run es init in
  let lost st := step w (connectionstatechange p st) in
  connections w !! p = Some pc -> closed pc = false ->
  lost cs_failed = lost cs_disconnected /\
  sent (lost cs_disconnected) = sent w /\
  callState (react (lost cs_disconnected)) = idle /\
  peerConnectionRef (lost cs_disconnected) = None /\
  localStreamRef (lost cs_disconnected) = None /\
  callTimerRef (lost cs_disconnected) = None.
Proof.
  intros w lost Hpc Hopen. unfold lost, step. rewrite Hpc, Hopen.
  unfold onconnectionstatechange. split; [done|].
  rewrite endCall_sent, endCall_react.
  destruct (endCall_refs (handlers pc) w) as (-> & -> & ->).
  repeat split.
  assert (created_from_button pc) as (_ & Hq).
  { eapply Forall_lookup_1; [|done].
    apply (reachable_closures w), reachable_run. }
  unfold announces_end.
  destruct Hq as [-> | ->]; by rewrite andb_false_r, app_nil_r.
Qed.

(** X4 at an instance: connection 0 of Moo's established call. *)
Lemma transport_loss_notifies_nobody_witness :
  let w := run moo_call_established init in
  let lost st := step w (connectionstatechange 0 st) in
  lost cs_failed = lost cs_disconnected /\
  sent (lost cs_disconnected) = sent w /\
  callState (react (lost cs_disconnected)) = idle /\
  peerConnectionRef (lost cs_disconnected) = None /\
  localStreamRef (lost cs_disconnected) = None /\
  callTimerRef (lost cs_disconnected) = None.
Proof.
  eapply (transport_loss_notifies_nobody moo_call_established 0);
    vm_compute; reflexivity.
Defined.

(** ** How each phase is entered *)

(** X5. The phase becomes [active] only through the connected report of a
    peer connection: no click, broadcast, settled promise, candidate or tick
    sets it. *)
Theorem active_only_by_connected_report w e :
  callState (react w) <> active -> callState (react (step w e)) = active ->
  is_connected_report e.
Proof.
  intros Hw He. destruct e as [b|m|i r|p st|p cd|t|d]; simpl in He.
  - exfalso. destruct (visible _ _); [|done].
    destruct b; unfold_handlers; repeat (simpl in *; case_match);
      simpl in *; congruence.
  - exfalso. unfold_handlers; repeat (simpl in *; case_match);
      simpl in *; congruence.
  - exfalso. destruct (pending w !! i) as [k|]; [|done].
    destruct (resume k r _) as [w'|] eqn:E; simpl in He; [|done].
    apply resume_callState in E as [E|E]; simpl in E; congruence.
  - destruct st; try (by exists p); exfalso;
      unfold_handlers; repeat (simpl in *; case_match); simpl in *; congruence.
  - exfalso. unfold_handlers; repeat (simpl in *; case_match);
      simpl in *; congruence.
  - exfalso. repeat (simpl in *; case_match); simpl in *; congruence.
  - done.
Qed.

(** X5 at an instance: the connected report of Moo's call. *)
Lemma active_only_by_connected_report_witness :
  is_connected_report (connectionstatechange 0 cs_connected).
Proof.
  apply (active_only_by_connected_report
           (run (removelast moo_call_established) init)).
  - vm_compute. discriminate.
  - vm_compute. reflexivity.
Defined.

(** X6. The phase becomes [calling] only by a click on "Call" while idle
    with an identity chosen, and [ringing] only by a broadcast call request
    addressed to the identity of the installed channel callback. *)
Theorem calling_and_ringing_entered w e :
  (callState (react w) <> calling -> callState (react (step w e)) = calling ->
   e = click btn_call /\ callState (react w) = idle /\
   userRole (react w) <> None) /\
  (callState (react w) <> ringing -> callState (react (step w e)) = ringing ->
   exists c callData, e = broadcast callData /\ subscription w = Some c /\
     to callData = userRole c /\ action callData = act_call).
Proof.
  split; intros Hw He; destruct e as [b|m|i r|p st|p cd|t|d]; simpl in He;
    try done.
  - destruct (visible _ _) eqn:Hvis; [|done]. unfold visible in Hvis.
    destruct b; unfold_handlers; repeat (simpl in *; case_match);
      simpl in *; try congruence.
    apply bool_decide_eq_true in Hvis. by rewrite Hvis.
  - exfalso. unfold_handlers; repeat (simpl in *; case_match);
      simpl in *; congruence.
  - exfalso. destruct (pending w !! i) as [k|]; [|done].
    destruct (resume k r _) as [w'|] eqn:E; simpl in He; [|done].
    apply resume_callState in E as [E|E]; simpl in E; congruence.
  - exfalso. unfold_handlers. repeat (simpl in *; case_match);
      simpl in *; congruence.
  - exfalso. unfold_handlers; repeat (simpl in *; case_match);
      simpl in *; congruence.
  - exfalso. repeat (simpl in *; case_match); simpl in *; congruence.
  - exfalso. destruct (visible _ _); [|done].
    destruct b; unfold_handlers; repeat (simpl in *; case_match);
      simpl in *; congruence.
  - destruct (subscription w) as [c|]; [|done].
    exists c, m. unfold on_broadcast, handleIncomingSignal in He.
    case_bool_decide; [|done].
    destruct (action m) eqn:Ha; try done; exfalso;
      unfold_handlers; repeat (simpl in *; case_match); simpl in *; congruence.
  - exfalso. destruct (pending w !! i) as [k|]; [|done].
    destruct (resume k r _) as [w'|] eqn:E; simpl in He; [|done].
    apply resume_callState in E as [E|E]; simpl in E; congruence.
  - exfalso. unfold_handlers. repeat (simpl in *; case_match);
      simpl in *; congruence.
  - exfalso. unfold_handlers; repeat (simpl in *; case_match);
      simpl in *; congruence.
  - exfalso. repeat (simpl in *; case_match); simpl in *; congruence.
Qed.

(** ** The identity *)

(** X7. While an identity is chosen and the phase is not [idle], no event
    changes the identity or the installed channel callback: the role buttons
    are not shown and "Switch User" is shown on the idle screen only. *)
Theorem identity_fixed_outside_idle w e :
  userRole (react w) <> None -> callState (react w) <> idle ->
  identity (step w e) = identity w.
Proof.
  intros Hrole Hphase. destruct e as [b|m|i r|p st|p cd|t|d]; simpl; try done.
  - destruct (visible _ _) eqn:Hvis; [|done]. unfold visible in Hvis.
    destruct (userRole (react w)); [|done].
    destruct b; simpl; try done;
      rewrite ?startCall_identity, ?endCall_identity, ?toggleMute_identity,
              ?rejectCall_identity, ?acceptCall_identity; try done.
    by apply bool_decide_eq_true in Hvis.
  - destruct (subscription w); [|done]. by rewrite on_broadcast_identity.
  - destruct (pending w !! i) as [k|]; [|done].
    destruct (resume k r _) as [w'|] eqn:E; simpl; [|done].
    by rewrite (resume_identity _ _ _ _ E).
  - destruct (connections w !! p) as [pc|]; [|done].
    destruct (closed pc); [done|]. by rewrite onconnectionstatechange_identity.
  - destruct (connections w !! p) as [pc|]; [|done].
    destruct (closed pc); [done|]. by rewrite onicecandidate_identity.
  - by repeat case_match.
Qed.

(** X7 at an instance: "Switch User" is not available during Moo's call. *)
Lemma identity_fixed_outside_idle_witness :
  identity (step (run moo_call_established init) (click btn_switch))
  = identity (run moo_call_established init).
Proof.
  apply identity_fixed_outside_idle; vm_compute; discriminate.
Defined.

(** X8. While no identity is chosen, no channel callback is installed: a
    broadcast changes nothing, whatever its recipient, also when its [to] is
    [null] like the identity. *)
Theorem without_identity_broadcasts_ignored es callData :
  let w := run es init in
  userRole (react w) = None -> step w (broadcast callData) = w.
Proof.
  intros w Hrole. pose proof (reachable_subscribed w (reachable_run es)) as H.
  unfold subscribed_as, identity in H. simpl in *.
  destruct (subscription w) as [c|]; [|done].
  destruct H as [H1 H2]. congruence.
Qed.

(** X8 at an instance: after "Switch User", a message without recipient. *)
Lemma without_identity_broadcasts_ignored_witness :
  step (run [click btn_moo; click btn_switch] init)
       (broadcast (signal (Some boo) None act_call (Some 7) None None 0))
  = run [click btn_moo; click btn_switch] init.
Proof.
  apply (without_identity_broadcasts_ignored [click btn_moo; click btn_switch]).
  reflexivity.
Defined.

(** ** An inbound answer (lines 84-88) *)

(** X9. An inbound call answer addressed to the local identity never
    changes the React state (the phase stays as it is) and sends nothing.
    With a referenced peer connection and an answer payload, the answer is
    passed to [setRemoteDescription] of that connection; without either,
    the world is unchanged. *)
Theorem answer_applied_to_referenced_session w c callData :
  subscription w = Some c -> to callData = userRole c ->
  action callData = act_answer ->
  let w' := step w (broadcast callData) in
  react w' = react w /\ sent w' = sent w /\
  (peerConnectionRef w = None -> w' = w) /\
  (answer callData = None -> w' = w) /\
  (forall p a pc, peerConnectionRef w = Some p -> answer callData = Some a ->
     connections w !! p = Some pc ->
     connections w' !! p = Some (pc_setRemoteDescription a pc)).
Proof.
  intros Hsub Hto Hact. simpl. rewrite Hsub. unfold on_broadcast.
  rewrite bool_decide_eq_true_2 by done.
  unfold handleIncomingSignal. rewrite Hact.
  split; [by repeat case_match|]. split; [by repeat case_match|].
  split; [by intros ->|].
  split; [intros ->; by destruct (peerConnectionRef w)|].
  intros p a pc -> -> Hpc. unfold on_connection. simpl.
  by rewrite list_lookup_alter_eq, Hpc.
Qed.

(** X9 at an instance: Boo's answer reaches Moo, whose call request is out. *)
Lemma answer_applied_to_referenced_session_witness :
  let w := run (removelast (removelast moo_call_established)) init in
  let w' := step w (broadcast (answer_from boo moo 8)) in
  callState (react w') = calling /\
  remoteDescription <$> connections w' !! 0 = Some (Some 8).
Proof.
  pose proof (answer_applied_to_referenced_session
    (run (removelast (removelast moo_call_established)) init)
    {| userRole := Some moo; callState := idle; callDuration := 0;
       isConnected := false; incomingCall := None; isMuted := false |}
    (answer_from boo moo 8) eq_refl eq_refl eq_refl) as (H1 & _ & _ & _ & H2).
  cbv zeta. split.
  - rewrite H1. vm_compute. reflexivity.
  - erewrite H2; [reflexivity|vm_compute; reflexivity..].
Defined.

(** ** The call timer counts ticks *)

Lemma run_cons e es w : run (e :: es) w = run es (step w e).
Proof. done. Qed.

Lemma ticks_counted t k w :
  intervals w !! t = Some true ->
  callDuration (react (run (replicate k (tick t)) w)) = callDuration (react w) + k /\
  callState (react (run (replicate k (tick t)) w)) = callState (react w).
Proof.
  revert w. induction k as [|k IH]; intros w Ht; simpl; [by rewrite Nat.add_0_r|].
  rewrite Ht. destruct (IH (setCallDuration S w) Ht) as [-> ->]. simpl.
  split; [lia|done].
Qed.

(** X10. After the connected report of an open peer connection, [k] ticks
    of the interval it started show a call duration of [k] seconds, in phase
    [active]. *)
Theorem duration_counts_ticks w p pc k :
  connections w !! p = Some pc -> closed pc = false ->
  let w' := run (connectionstatechange p cs_connected ::
                 replicate k (tick (length (intervals w)))) w in
  callDuration (react w') = k /\ callState (react w') = active.
Proof.
  intros Hpc Hopen. cbv zeta. rewrite run_cons.
  assert (step w (connectionstatechange p cs_connected)
          = startCallTimer (setCallState active (setIsConnected true w))) as ->.
  { unfold step. by rewrite Hpc, Hopen. }
  edestruct ticks_counted as [-> ->]; [|done].
  unfold startCallTimer. simpl. by rewrite list_lookup_middle.
Qed.

(** X10 at an instance: three ticks in Moo's call. *)
Lemma duration_counts_ticks_witness :
  let w := run (removelast moo_call_established) init in
  let w' := run (connectionstatechange 0 cs_connected ::
                 replicate 3 (tick (length (intervals w)))) w in
  callDuration (react w') = 3 /\ callState (react w') = active.
Proof.
  eapply (duration_counts_ticks (run (removelast moo_call_established) init) 0);
    vm_compute; reflexivity.
Defined.

(** X11. Once [endCall] has run, ticks of the interval that was the current
    timer no longer count: they leave the world unchanged. *)
Theorem cleared_timer_ticks_ignored es c t :
  let w := run es init in
  callTimerRef w = Some t ->
  step (endCall c w) (tick t) = endCall c w.
Proof.
  intros w Ht.
  destruct (reachable_refs w (reachable_run es)) as (_ & _ & Hr).
  specialize (Hr t Ht). apply lookup_lt_Some in Hr.
  unfold step. rewrite endCall_intervals, Ht.
  by rewrite list_lookup_insert_eq.
Qed.

(** X11 at an instance: the "End" button of Moo's call, then a late tick. *)
Lemma cleared_timer_ticks_ignored_witness :
  let w := run moo_call_established init in
  step (endCall (react w) w) (tick 0) = endCall (react w) w.
Proof.
  apply (cleared_timer_ticks_ignored moo_call_established). reflexivity.
Defined.

(** ** Placing and accepting a call, step by step *)

Lemma settle_last w l k r w' :
  pending w = l ++ [k] -> resume k r (set_pending l w) = Some w' ->
  step w (settle (length l) r) = w'.
Proof.
  intros Hp Hr. simpl. rewrite Hp, list_lookup_middle by done.
  by rewrite delete_middle, app_nil_r, Hr.
Qed.

Lemma alter_snoc {A} (f : A -> A) l x :
  alter f (length l) (l ++ [x]) = l ++ [f x].
Proof. by rewrite <- (Nat.add_0_r (length l)), alter_app_r. Qed.

(** X12. From a world that shows the "Call" button, a click followed by a
    granted microphone request of [n] tracks, a created offer [o] and an
    applied local description sends exactly one message, the call request
    carrying [o] to the other role.  The phase is [calling]; the refs hold
    the new stream and a new open connection that has the [n] tracks and
    the local description [o]; no continuation is left outstanding. *)
Theorem place_call_sends_one_request w n o :
  visible (react w) btn_call = true ->
  let i := length (pending w) in
  let w' := run [click btn_call; settle i (fulfilled_stream n);
                 settle i (fulfilled_description o); settle i fulfilled] w in
  callState (react w') = calling /\
  sent w' = sent w ++ [signal (userRole (react w)) (other (userRole (react w)))
                              act_call (Some o) None None (now w)] /\
  pending w' = pending w /\
  localStreamRef w' = Some (length (streams w)) /\
  streams w' = streams w ++ [replicate n {| enabled := true; live := true |}] /\
  peerConnectionRef w' = Some (length (connections w)) /\
  connections w' = connections w ++
    [{| closed := false; handlers := react w;
        senders := map (fun j => (length (streams w), j)) (seq 0 n);
        localDescription := Some o; remoteDescription := None;
        remoteCandidates := [] |}].
Proof.
  intros Hvis. cbv zeta. rewrite run_cons.
  assert (exists r, userRole (react w) = Some r) as [r Hr].
  { unfold visible in Hvis. destruct (userRole (react w)); [by eexists|done]. }
  assert (step w (click btn_call)
          = suspend (startCall_getUserMedia (react w)) (setCallState calling w))
    as ->.
  { unfold step. rewrite Hvis. unfold onClick, startCall. by rewrite Hr. }
  do 3 (rewrite run_cons; erewrite (settle_last _ (pending w)); [|reflexivity..]).
  unfold run. simpl. by rewrite !alter_snoc.
Qed.

(** X12 at an instance: Moo, just chosen, places a call. *)
Lemma place_call_sends_one_request_witness :
  let w := run [click btn_moo] init in
  let w' := run [click btn_call; settle 0 (fulfilled_stream 1);
                 settle 0 (fulfilled_description 7); settle 0 fulfilled] w in
  callState (react w') = calling /\ sent w' = [call_from moo boo 7] /\
  pending w' = [].
Proof.
  pose proof (place_call_sends_one_request (run [click btn_moo] init) 1 7 eq_refl)
    as (H1 & H2 & H3 & _).
  cbv zeta. split; [exact H1|]. split; [exact H2|exact H3].
Defined.

(** X13. From a world that shows the "Accept" button for a stored request
    with an offer, a click followed by a granted microphone request, the
    applied remote offer, a created answer [a] and an applied local
    description sends exactly one message, the call answer carrying [a] to
    the sender of the request.  The stored request is cleared and the phase
    is still [ringing]; the refs hold the new stream and a new open
    connection with the offer as remote and [a] as local description. *)
Theorem accept_call_sends_one_answer w ic o n a :
  visible (react w) btn_accept = true ->
  incomingCall (react w) = Some ic -> offer ic = Some o ->
  let i := length (pending w) in
  let w' := run [click btn_accept; settle i (fulfilled_stream n);
                 settle i fulfilled; settle i (fulfilled_description a);
                 settle i fulfilled] w in
  callState (react w') = ringing /\ incomingCall (react w') = None /\
  sent w' = sent w ++ [signal (userRole (react w)) (from ic)
                              act_answer None (Some a) None (now w)] /\
  pending w' = pending w /\
  localStreamRef w' = Some (length (streams w)) /\
  peerConnectionRef w' = Some (length (connections w)) /\
  connections w' = connections w ++
    [{| closed := false; handlers := react w;
        senders := map (fun j => (length (streams w), j)) (seq 0 n);
        localDescription := Some a; remoteDescription := Some o;
        remoteCandidates := [] |}].
Proof.
  intros Hvis Hic Ho. cbv zeta. rewrite run_cons.
  unfold visible in Hvis.
  destruct (userRole (react w)) as [r|] eqn:Hr; [|done].
  apply andb_true_iff in Hvis as [Hphase _].
  apply bool_decide_eq_true in Hphase.
  assert (step w (click btn_accept)
          = suspend (acceptCall_getUserMedia (react w)) w) as ->.
  { unfold step, visible. rewrite Hr, Hphase, Hic. simpl.
    unfold acceptCall. by rewrite Hr, Hic. }
  rewrite run_cons.
  erewrite (settle_last _ (pending w));
    [|reflexivity|simpl; rewrite Hic; simpl; rewrite Ho; reflexivity].
  do 3 (rewrite run_cons; erewrite (settle_last _ (pending w)); [|reflexivity..]).
  unfold run. simpl. rewrite !alter_snoc, Hic, Hr, Hphase. by repeat split.
Qed.

(** X13 at an instance: Boo, rung by Moo, accepts. *)
Lemma accept_call_sends_one_answer_witness :
  let w := run boo_rings init in
  let w' := run boo_accepts w in
  callState (react w') = ringing /\ incomingCall (react w') = None /\
  sent w' = [answer_from boo moo 9].
Proof.
  pose proof (accept_call_sends_one_answer (run boo_rings init)
    (call_from moo boo 7) 7 1 9 eq_refl eq_refl eq_refl)
    as (H1 & H2 & H3 & _).
  cbv zeta. split; [exact H1|]. split; [exact H2|exact H3].
Defined.

(** X14. When the stored request carries no offer, "Accept" followed by a
    granted microphone request sends nothing and leaves nothing outstanding:
    the stored request is cleared, the phase stays [ringing], and the refs
    hold the new stream and a new open connection without any
    description. *)
Theorem accept_without_offer_answers_nothing w ic n :
  visible (react w) btn_accept = true ->
  incomingCall (react w) = Some ic -> offer ic = None ->
  let i := length (pending w) in
  let w' := run [click btn_accept; settle i (fulfilled_stream n)] w in
  callState (react w') = ringing /\ incomingCall (react w') = None /\
  sent w' = sent w /\ pending w' = pending w /\
  localStreamRef w' = Some (length (streams w)) /\
  peerConnectionRef w' = Some (length (connections w)) /\
  connections w' = connections w ++
    [{| closed := false; handlers := react w;
        senders := map (fun j => (length (streams w), j)) (seq 0 n);
        localDescription := None; remoteDescription := None;
        remoteCandidates := [] |}].
Proof.
  intros Hvis Hic Ho. cbv zeta. rewrite run_cons.
  unfold visible in Hvis.
  destruct (userRole (react w)) as [r|] eqn:Hr; [|done].
  apply andb_true_iff in Hvis as [Hphase _].
  apply bool_decide_eq_true in Hphase.
  assert (step w (click btn_accept)
          = suspend (acceptCall_getUserMedia (react w)) w) as ->.
  { unfold step, visible. rewrite Hr, Hphase, Hic. simpl.
    unfold acceptCall. by rewrite Hr, Hic. }
  rewrite run_cons.
  erewrite (settle_last _ (pending w));
    [|reflexivity|simpl; rewrite Hic; simpl; rewrite Ho; reflexivity].
  unfold run. simpl. rewrite !alter_snoc, ?Hr, ?Hphase. by repeat split.
Qed.

(** X14 at an instance: a call request without offer reaches Boo. *)
Lemma accept_without_offer_answers_nothing_witness :
  let w := run [click btn_boo;
                broadcast (signal (Some moo) (Some boo) act_call None None None 0)]
               init in
  let w' := run [click btn_accept; settle 0 (fulfilled_stream 1)] w in
  callState (react w') = ringing /\ incomingCall (react w') = None /\
  sent w' = [] /\ peerConnectionRef w' = Some 0.
Proof.
  pose proof (accept_without_offer_answers_nothing
    (run [click btn_boo;
          broadcast (signal (Some moo) (Some boo) act_call None None None 0)] init)
    (signal (Some moo) (Some boo) act_call None None None 0) 1
    eq_refl eq_refl eq_refl) as (H1 & H2 & H3 & _ & _ & H4 & _).
  cbv zeta. split; [exact H1|]. split; [exact H2|]. split; [exact H3|exact H4].
Defined.

(** ** Failures of the microphone request, and "Reject" *)

(** X15. When the microphone request of a placed call is rejected, the
    [catch] of [startCall] puts the phase back to [idle]: the world is
    exactly as before the click on "Call": nothing was sent, created or
    stored. *)
Theorem denied_microphone_undoes_call w :
  visible (react w) btn_call = true ->
  run [click btn_call; settle (length (pending w)) rejected] w = w.
Proof.
  intros Hvis. rewrite run_cons.
  unfold visible in Hvis.
  destruct (userRole (react w)) as [r|] eqn:Hr; [|done].
  apply bool_decide_eq_true in Hvis.
  assert (step w (click btn_call)
          = suspend (startCall_getUserMedia (react w)) (setCallState calling w))
    as ->.
  { unfold step, visible. rewrite Hr, Hvis. simpl.
    unfold startCall. by rewrite Hr. }
  rewrite run_cons. erewrite (settle_last _ (pending w)); [|reflexivity..].
  unfold run. simpl. apply World_eq; simpl; try done.
  destruct (react w); simpl in *. by subst.
Qed.

(** X15 at an instance: Moo, just chosen, is denied the microphone. *)
Lemma denied_microphone_undoes_call_witness :
  run [click btn_call; settle 0 rejected] (run [click btn_moo] init)
  = run [click btn_moo] init.
Proof.
  apply (denied_microphone_undoes_call (run [click btn_moo] init)). reflexivity.
Defined.

(** X16. "Reject" sends one call-rejected message to the sender of the
    stored request, clears the request and sets the phase to [idle]; refs,
    connections, streams and intervals are untouched.  A rejected microphone
    request after "Accept" reaches the same [rejectCall] through the [catch]
    of [acceptCall], and gives the same world as "Reject". *)
Theorem reject_button_and_denied_accept w ic :
  visible (react w) btn_reject = true -> incomingCall (react w) = Some ic ->
  step w (click btn_reject)
  = setCallState idle (setIncomingCall None
      (sendSignal (signal (userRole (react w)) (from ic) act_reject
                          None None None) w)) /\
  run [click btn_accept; settle (length (pending w)) rejected] w
  = step w (click btn_reject).
Proof.
  intros Hvis Hic.
  assert (visible (react w) btn_accept = true) as Hacc by done.
  unfold visible in Hvis.
  destruct (userRole (react w)) as [r|] eqn:Hr; [|done].
  assert (step w (click btn_reject) = rejectCall (react w) w) as ->.
  { unfold step, visible. by rewrite Hr, Hvis. }
  split; [unfold rejectCall; by rewrite Hic, Hr|].
  rewrite run_cons.
  assert (step w (click btn_accept)
          = suspend (acceptCall_getUserMedia (react w)) w) as ->.
  { unfold step. rewrite Hacc. unfold onClick, acceptCall. by rewrite Hr, Hic. }
  rewrite run_cons. erewrite (settle_last _ (pending w)); [|reflexivity..].
  unfold run, rejectCall. simpl. rewrite Hic, Hr. by apply World_eq.
Qed.

(** X16 at an instance: Boo, rung by Moo. *)
Lemma reject_button_and_denied_accept_witness :
  let w := run boo_rings init in
  sent (step w (click btn_reject))
  = [signal (Some boo) (Some moo) act_reject None None None 0] /\
  run [click btn_accept; settle 0 rejected] w = step w (click btn_reject).
Proof.
  pose proof (reject_button_and_denied_accept (run boo_rings init)
    (call_from moo boo 7) eq_refl eq_refl) as (H1 & H2).
  cbv zeta. split; [rewrite H1; reflexivity|exact H2].
Defined.

(** ** Discovered candidates (lines 116-125) *)

(** X17. After any sequence of events, every candidate that an open peer
    connection discovers is sent to the other role as one candidate message
    from the identity under which the connection was created, and nothing
    else changes; the event without candidate that ends the discovery
    changes nothing. *)
Theorem discovered_candidate_forwarded es p pc cd :
  let w := run es init in
  connections w !! p = Some pc -> closed pc = false ->
  userRole (handlers pc) <> None /\
  step w (icecandidate p (Some cd))
  = sendSignal (signal (userRole (handlers pc)) (other (userRole (handlers pc)))
                       act_ice_candidate None None (Some cd)) w /\
  step w (icecandidate p None) = w.
Proof.
  intros w Hpc Hopen.
  assert (created_from_button pc) as (Hu & _).
  { eapply Forall_lookup_1; [|done].
    apply (reachable_closures w), reachable_run. }
  split; [done|]. unfold step. rewrite Hpc, Hopen. unfold onicecandidate.
  by destruct (userRole (handlers pc)).
Qed.

(** X17 at an instance: a candidate of Moo's connection. *)
Lemma discovered_candidate_forwarded_witness :
  let w := run moo_call_established init in
  sent (step w (icecandidate 0 (Some 5)))
  = sent w ++ [candidate_from moo boo 5] /\
  step w (icecandidate 0 None) = w.
Proof.
  pose proof (discovered_candidate_forwarded moo_call_established 0
    {| closed := false;
       handlers := {| userRole := Some moo; callState := idle;
                      callDuration := 0; isConnected := false;
                      incomingCall := None; isMuted := false |};
       senders := [(0, 0)]; localDescription := Some 7;
       remoteDescription := Some 8; remoteCandidates := [] |}
    5 eq_refl eq_refl) as (_ & H1 & H2).
  cbv zeta. split; [|exact H2].
  etrans; [exact (f_equal sent H1)|]. vm_compute. reflexivity.
Defined.

(** ** Display of the call duration *)

Lemma split_digits d rest :
  split_at_colon (NilEmpty.string_of_uint d +:+ String ":" rest)
  = Some (NilEmpty.string_of_uint d, rest).
Proof.
  induction d; simpl; unfold String.app in *; simpl; by rewrite ?IHd.
Qed.

Lemma split_padded k s rest :
  split_at_colon (s +:+ String ":" rest) = Some (s, rest) ->
  split_at_colon ((repeat_char "0" k +:+ s) +:+ String ":" rest)
  = Some (repeat_char "0" k +:+ s, rest).
Proof.
  intros Hs. induction k as [|k IH]; [done|].
  simpl. unfold String.app in *. simpl. by rewrite IH.
Qed.

Lemma uint_of_padded k d :
  Nat.of_uint <$> NilEmpty.uint_of_string
                    (repeat_char "0" k +:+ NilEmpty.string_of_uint d)
  = Some (Nat.of_uint d).
Proof.
  induction k as [|k IH]; simpl; unfold String.app in *; simpl.
  - by rewrite NilEmpty.usu.
  - destruct (NilEmpty.uint_of_string _) as [d'|]; [|done].
    simpl in *. by injection IH as <-.
Qed.

(** X18. The displayed duration can be read back: the minutes before the
    colon and the seconds after it give the number of seconds that was
    formatted.  So different durations are displayed differently. *)
Theorem formatDuration_read_back seconds :
  parseDuration (formatDuration seconds) = Some seconds.
Proof.
  unfold parseDuration, formatDuration, padStart, toString. cbv zeta.
  pose proof (Nat.div_mod_eq seconds 60) as Hdm.
  set (m := seconds / 60) in *. set (r := seconds `mod` 60) in *.
  clearbody m r.
  change (":" +:+ ?b) with (String ":" b).
  rewrite split_padded by apply split_digits. simpl.
  pose proof (uint_of_padded
    (2 - String.length (NilEmpty.string_of_uint (Nat.to_uint m)))
    (Nat.to_uint m)) as Hm.
  pose proof (uint_of_padded
    (2 - String.length (NilEmpty.string_of_uint (Nat.to_uint r)))
    (Nat.to_uint r)) as Hr.
  destruct (NilEmpty.uint_of_string _) as [dm|]; [|done].
  destruct (NilEmpty.uint_of_string _) as [ds|]; [|done].
  simpl in Hm, Hr |- *. injection Hm as ->. injection Hr as ->.
  rewrite !DecimalNat.Unsigned.of_to. f_equal. lia.
Qed.




